(** * SkillsForge: the skill loader, its reference rewriter and the tools
      built over it

    A shallow embedding of [skill_loader.py], of the lookup tools of
    [skill_tool.py], of the prompt injection of [skill_middleware.py] and
    of the shell tool of [deepagent_example/bash_tool.py], with the
    properties of the loading pipeline and of these tools proved about it.

    Python [str] values are sequences of code points, and are modelled as
    lists of code points.  The regular expressions of the loader are kept
    as syntax trees and run by a backtracking matcher that tries the
    alternatives in the order Python's [re] module does. *)

From Stdlib Require Import String Ascii DecimalString.
From Stdlib Require Import List NArith ZArith Bool Arith Lia.
Import ListNotations.

Set Implicit Arguments.

(** ** Text *)

Definition text := list N.

(** Decoding of an UTF-8 literal of this file into code points. *)
Fixpoint utf8_decode (bs : list N) (need : nat) (acc : N) : text :=
  match bs with
  | [] => []
  | b :: bs' =>
      match need with
      | O =>
          if (b <? 128)%N then b :: utf8_decode bs' 0 0%N
          else if (b <? 224)%N then utf8_decode bs' 1 (b - 192)%N
          else if (b <? 240)%N then utf8_decode bs' 2 (b - 224)%N
          else utf8_decode bs' 3 (b - 240)%N
      | S O => (acc * 64 + (b - 128))%N :: utf8_decode bs' 0 0%N
      | S n => utf8_decode bs' n (acc * 64 + (b - 128))%N
      end
  end.

Definition txt (s : string) : text :=
  utf8_decode (map N_of_ascii (list_ascii_of_string s)) 0 0%N.

Definition nl : N := 10%N.
Definition backtick : N := 96%N.
Definition slash : N := 47%N.

Definition text_eqb (a b : text) : bool :=
  if list_eq_dec N.eq_dec a b then true else false.

(** [str.isspace] on one code point; also the class [\s] of [re] on [str]
    patterns. *)
Definition is_space (c : N) : bool :=
  ((9 <=? c) && (c <=? 13) || (28 <=? c) && (c <=? 32)
   || (c =? 133) || (c =? 160) || (c =? 5760)
   || (8192 <=? c) && (c <=? 8202)
   || (c =? 8232) || (c =? 8233) || (c =? 8239) || (c =? 8287)
   || (c =? 12288))%N.

Fixpoint lstrip (s : text) : text :=
  match s with
  | c :: s' => if is_space c then lstrip s' else s
  | [] => []
  end.

Definition rstrip (s : text) : text := rev (lstrip (rev s)).

(** [str.strip()] *)
Definition strip (s : text) : text := rstrip (lstrip s).

Fixpoint starts_with (p s : text) : bool :=
  match p, s with
  | [], _ => true
  | a :: p', b :: s' => (a =? b)%N && starts_with p' s'
  | _ :: _, [] => false
  end.

(** [sub in s] on two [str] values. *)
Fixpoint occurs (w s : text) : bool :=
  starts_with w s || match s with [] => false | _ :: s' => occurs w s' end.

(** [sep.join(parts)] on [str] parts. *)
Fixpoint join (sep : text) (parts : list text) : text :=
  match parts with
  | [] => []
  | [p] => p
  | p :: rest => p ++ sep ++ join sep rest
  end.

(** ** Regular expressions, as [re] runs them

    Every repetition in the four patterns of [skill_loader.py] ranges over
    a set of single characters, so the quantifiers carry that set. *)

Inductive regex : Type :=
| Eps
| One (p : N -> bool)         (* a literal or a character set *)
| Cat (a b : regex)
| Alt (a b : regex)           (* a|b, a tried first *)
| Opt (a : regex)             (* a?, greedy *)
| Many (p : N -> bool)        (* [..]*, greedy *)
| Few (p : N -> bool)         (* [..]*?, lazy *)
| Grp (n : nat) (a : regex)   (* capturing group number n *)
| Bos                         (* ^ without MULTILINE *)
| Eos.                        (* $ without MULTILINE *)

Definition groups := list (nat * text).

(** The part of [s] consumed when [s1] is what is left of it. *)
Definition taken (s s1 : text) : text := firstn (length s - length s1) s.

Section Matcher.
Variable R : Type.
Variable len0 : nat.   (* length of the whole subject, for [^] *)

Definition cont := text -> groups -> option R.

Fixpoint many (p : N -> bool) (s : text) (g : groups) (k : cont) : option R :=
  match s with
  | c :: s' =>
      if p c then
        match many p s' g k with
        | Some r => Some r
        | None => k s g
        end
      else k s g
  | [] => k s g
  end.

Fixpoint few (p : N -> bool) (s : text) (g : groups) (k : cont) : option R :=
  match k s g with
  | Some r => Some r
  | None =>
      match s with
      | c :: s' => if p c then few p s' g k else None
      | [] => None
      end
  end.

Fixpoint run (r : regex) (s : text) (g : groups) (k : cont) : option R :=
  match r with
  | Eps => k s g
  | One p =>
      match s with
      | c :: s' => if p c then k s' g else None
      | [] => None
      end
  | Cat a b => run a s g (fun s1 g1 => run b s1 g1 k)
  | Alt a b =>
      match run a s g k with
      | Some r => Some r
      | None => run b s g k
      end
  | Opt a =>
      match run a s g k with
      | Some r => Some r
      | None => k s g
      end
  | Many p => many p s g k
  | Few p => few p s g k
  | Grp n a => run a s g (fun s1 g1 => k s1 ((n, taken s s1) :: g1))
  | Bos => if length s =? len0 then k s g else None
  | Eos =>
      match s with
      | [] => k s g
      | [c] => if (c =? nl)%N then k s g else None
      | _ => None
      end
  end.
End Matcher.

(** A match object: [group(0)] and the groups that took part. *)
Record rmatch : Type := { whole : text; caps : groups }.

Fixpoint assoc (g : groups) (n : nat) : option text :=
  match g with
  | [] => None
  | (k, v) :: g' => if k =? n then Some v else assoc g' n
  end.

(** [m.group(n)]; [None] for a group that took no part in the match. *)
Definition group (m : rmatch) (n : nat) : option text :=
  match n with O => Some (whole m) | _ => assoc (caps m) n end.

(** [m.group(n)] of a group that always takes part. *)
Definition group_str (m : rmatch) (n : nat) : text :=
  match group m n with Some t => t | None => [] end.

(** The match of [r] that starts where [s] starts, the subject being
    [len0] characters long. *)
Definition match_at (len0 : nat) (r : regex) (s : text) : option rmatch :=
  run len0 r s [] (fun s1 g => Some {| whole := taken s s1; caps := g |}).

(** [re.match(r, s)] *)
Definition re_match (r : regex) (s : text) : option rmatch :=
  match_at (length s) r s.

(** [re.sub(r, repl, s)] with a function [repl]: the subject is scanned
    from the left; [skip] counts the characters of the last match still to
    be passed over.  After an empty match the character at hand is copied. *)
Fixpoint sub_from (len0 : nat) (r : regex) (repl : rmatch -> text)
         (skip : nat) (s : text) : text :=
  match skip with
  | S n => match s with [] => [] | _ :: s' => sub_from len0 r repl n s' end
  | O =>
      match s with
      | [] => match match_at len0 r [] with Some m => repl m | None => [] end
      | c :: s' =>
          match match_at len0 r s with
          | Some m =>
              match length (whole m) with
              | O => repl m ++ c :: sub_from len0 r repl 0 s'
              | S n => repl m ++ sub_from len0 r repl n s'
              end
          | None => c :: sub_from len0 r repl 0 s'
          end
      end
  end.

Definition re_sub (r : regex) (repl : rmatch -> text) (s : text) : text :=
  sub_from (length s) r repl 0 s.

(** *** Building patterns *)

Definition chr (c : N) : N -> bool := N.eqb c.
Definition any : N -> bool := fun _ => true.

Definition ascii_lower (c : N) : N :=
  if ((65 <=? c) && (c <=? 90))%N then (c + 32)%N else c.

(** The simple lower-case mapping [re] applies to a subject character
    under IGNORECASE, as far as ASCII letters are concerned: besides A-Z
    only U+0130 and U+212A map to an ASCII letter. *)
Definition sre_lower (c : N) : N :=
  if (c =? 304)%N then 105%N
  else if (c =? 8490)%N then 107%N
  else ascii_lower c.

(** An ASCII pattern character under IGNORECASE; U+0131 and U+017F are the
    extra equivalents [re] adds for i and s. *)
Definition ci (p : N) (c : N) : bool :=
  let lo := ascii_lower p in
  ((sre_lower c =? lo) || (lo =? 105) && (c =? 305)
   || (lo =? 115) && (c =? 383))%N.

Definition lit (ignorecase : bool) (w : text) : regex :=
  fold_right (fun c r => Cat (One (if ignorecase then ci c else chr c)) r) Eps w.

Definition str (w : string) : regex := lit false (txt w).
Definition istr (w : string) : regex := lit true (txt w).

Fixpoint alts (l : list regex) : regex :=
  match l with
  | [] => One (fun _ => false)
  | [a] => a
  | a :: l' => Alt a (alts l')
  end.

Definition many1 (p : N -> bool) : regex := Cat (One p) (Many p).

(** ** Python values and exceptions *)

(** What [yaml.safe_load] can return for a header; floats, timestamps and
    binary scalars are left out. *)
#[local] Unset Elimination Schemes.
Inductive yaml : Type :=
| YNull
| YBool (b : bool)
| YInt (z : Z)
| YStr (s : text)
| YSeq (items : list yaml)
| YMap (items : list (yaml * yaml)).
#[local] Set Elimination Schemes.

(** The exceptions that occur, all of them derived from [Exception]
    (interrupts are not modelled); printing is taken not to fail. *)
Inductive exn : Type :=
| YAMLError
| TypeError
| KeyError
| AttributeError
| OSError
| UnicodeDecodeError.

Inductive outcome (A : Type) : Type :=
| Return (a : A)
| Raise (e : exn).

Arguments Return {A} a.
Arguments Raise {A} e.

Definition bind {A B} (c : outcome A) (f : A -> outcome B) : outcome B :=
  match c with
  | Return a => f a
  | Raise e => Raise e
  end.

Notation "x <- c ;; k" := (bind c (fun x => k))
  (at level 61, c at next level, right associativity).

(** ** The world outside the loader: [pathlib], the files and PyYAML *)

Record world : Type := {
  join_path : text -> text -> text;    (* str(Path(d) / r) *)
  path_exists : text -> bool;          (* Path(p).exists() *)
  path_parent : text -> text;          (* str(Path(p).parent) *)
  rglob : text -> list text;           (* Path(d).rglob("SKILL.md"), in order *)
  read_text : text -> outcome text;    (* Path(p).read_text(encoding="utf-8") *)
  safe_load : text -> outcome yaml;    (* yaml.safe_load *)
  repr_compound : yaml -> text         (* str() of a list or a dict *)
}.

(** ** The reference rewriter: [SkillLoader._process_skill_paths] *)

Definition set_dirs (c : N) : bool :=
  negb (is_space c || chr backtick c || chr 41 c).

(** [(python\s+|`)((?:scripts|examples|templates|reference)/[^\s`\)]+)] *)
Definition pattern_dirs : regex :=
  Cat (Grp 1 (Alt (Cat (str "python") (many1 is_space)) (str "`")))
      (Grp 2 (Cat (alts [str "scripts"; str "examples"; str "templates";
                         str "reference"])
                  (Cat (str "/") (many1 set_dirs)))).

(** [[a-zA-Z0-9_-]] under IGNORECASE *)
Definition set_filename (c : N) : bool :=
  let l := sre_lower c in
  ((97 <=? l) && (l <=? 122) || (48 <=? l) && (l <=? 57)
   || (l =? 95) || (l =? 45) || (l =? 305) || (l =? 383))%N.

Definition set_suffix (c : N) : bool :=
  chr 46 c || chr 44 c || chr 59 c || is_space c.

(** [(see|read|refer to|check)\s+([a-zA-Z0-9_-]+\.(?:md|txt|json|yaml))([.,;\s])],
    IGNORECASE *)
Definition pattern_docs : regex :=
  Cat (Grp 1 (alts [istr "see"; istr "read"; istr "refer to"; istr "check"]))
 (Cat (many1 is_space)
 (Cat (Grp 2 (Cat (many1 set_filename)
             (Cat (str ".")
                  (alts [istr "md"; istr "txt"; istr "json"; istr "yaml"]))))
      (Grp 3 (One set_suffix)))).

Definition set_link_text (c : N) : bool := negb (chr backtick c || chr 93 c).
Definition set_link_path (c : N) : bool := negb (chr 41 c).

(** [(?:(Read|See|Check|Refer to|Load|View)\s+)?\[(`?[^`\]]+`?)\]\(((?:\./)?[^)]+\.(?:md|txt|json|yaml|js|py|html))\)],
    IGNORECASE *)
Definition pattern_markdown : regex :=
  Cat (Opt (Cat (Grp 1 (alts [istr "Read"; istr "See"; istr "Check";
                              istr "Refer to"; istr "Load"; istr "View"]))
                (many1 is_space)))
 (Cat (str "[")
 (Cat (Grp 2 (Cat (Opt (str "`"))
             (Cat (many1 set_link_text) (Opt (str "`")))))
 (Cat (str "](")
 (Cat (Grp 3 (Cat (Opt (str "./"))
             (Cat (many1 set_link_path)
             (Cat (str ".")
                  (alts [istr "md"; istr "txt"; istr "json"; istr "yaml";
                         istr "js"; istr "py"; istr "html"])))))
      (str ")"))))).

Definition use_read_file : text := txt " (use read_file to access)".

Section Rewriter.
Variable W : world.
Variable skill_dir : text.

Definition replace_dir_path (m : rmatch) : text :=
  let prefix := group_str m 1 in
  let rel_path := group_str m 2 in
  let abs_path := join_path W skill_dir rel_path in
  if path_exists W abs_path then prefix ++ abs_path
  else group_str m 0.

Definition replace_doc_path (m : rmatch) : text :=
  let prefix := group_str m 1 in
  let filename := group_str m 2 in
  let suffix := group_str m 3 in
  let abs_path := join_path W skill_dir filename in
  if path_exists W abs_path
  then prefix ++ txt "`" ++ abs_path ++ txt "`" ++ use_read_file ++ suffix
  else group_str m 0.

(** [filepath[2:] if filepath.startswith("./") else filepath] *)
Definition clean_path (filepath : text) : text :=
  if starts_with (txt "./") filepath then skipn 2 filepath else filepath.

Definition replace_markdown_link (m : rmatch) : text :=
  let prefix :=
    match group m 1 with Some (c :: p) => c :: p | _ => [] end in
  let link_text := group_str m 2 in
  let filepath := group_str m 3 in
  let abs_path := join_path W skill_dir (clean_path filepath) in
  if path_exists W abs_path
  then prefix ++ txt "[" ++ link_text ++ txt "](`" ++ abs_path ++ txt "`)"
       ++ use_read_file
  else group_str m 0.

Definition process_skill_paths (content : text) : text :=
  let content := re_sub pattern_dirs replace_dir_path content in
  let content := re_sub pattern_docs replace_doc_path content in
  let content := re_sub pattern_markdown replace_markdown_link content in
  content.
End Rewriter.

(** ** Operations of Python on header values *)

Definition is_str (k : text) (v : yaml) : bool :=
  match v with YStr s => text_eqb s k | _ => false end.

(** The value bound to the [str] key [k] among the items of a dict. *)
Fixpoint lookup (k : text) (items : list (yaml * yaml)) : option yaml :=
  match items with
  | [] => None
  | (k', v) :: rest => if is_str k k' then Some v else lookup k rest
  end.

(** [k in v], for a [str] [k]: key of a dict, element of a list, substring
    of a [str]; [None], [bool] and [int] are not iterable. *)
Definition py_in (k : text) (v : yaml) : outcome bool :=
  match v with
  | YMap items => Return (match lookup k items with Some _ => true | None => false end)
  | YSeq items => Return (existsb (is_str k) items)
  | YStr s => Return (occurs k s)
  | _ => Raise TypeError
  end.

(** [v[k]], for a [str] [k] *)
Definition py_getitem (v : yaml) (k : text) : outcome yaml :=
  match v with
  | YMap items =>
      match lookup k items with
      | Some x => Return x
      | None => Raise KeyError
      end
  | _ => Raise TypeError
  end.

(** [v.get(k)] *)
Definition py_get (v : yaml) (k : text) : outcome yaml :=
  match v with
  | YMap items =>
      Return (match lookup k items with Some x => x | None => YNull end)
  | _ => Raise AttributeError
  end.

Definition decimal (z : Z) : text := txt (NilZero.string_of_int (Z.to_int z)).

(** [str(v)], as an f-string formats a header value. *)
Definition py_str (W : world) (v : yaml) : text :=
  match v with
  | YStr s => s
  | YNull => txt "None"
  | YBool true => txt "True"
  | YBool false => txt "False"
  | YInt z => decimal z
  | _ => repr_compound W v
  end.

(** [sep.join(items)]: every item has to be a [str]. *)
Fixpoint strs (items : list yaml) : option (list text) :=
  match items with
  | [] => Some []
  | YStr s :: rest =>
      match strs rest with Some l => Some (s :: l) | None => None end
  | _ :: _ => None
  end.

Definition str_join (sep : text) (items : list yaml) : outcome text :=
  match strs items with
  | Some parts => Return (join sep parts)
  | None => Raise TypeError
  end.

(** ** [Skill] *)

Record Skill : Type := mkSkill {
  name : yaml;
  description : yaml;
  content : text;
  license : yaml;
  allowed_tools : yaml;
  metadata : yaml;
  skill_path : option text
}.

(** [Skill.to_prompt] *)
Definition to_prompt (W : world) (self : Skill) : text :=
  [nl] ++ txt "# Skill: " ++ py_str W (name self) ++ [nl; nl]
  ++ py_str W (description self) ++ [nl; nl] ++ txt "---" ++ [nl; nl]
  ++ content self ++ [nl].

(** ** [SkillLoader.load_skill] *)

(** The pattern of [load_skill], with DOTALL: start of text, a line of
    three dashes, a lazy group 1 of any characters, a newline and a second
    line of three dashes, a greedy group 2 of any characters, end of text. *)
Definition dashes : text := txt "---" ++ [nl].
Definition closing : text := [nl] ++ txt "---" ++ [nl].

Definition pattern_frontmatter : regex :=
  Cat Bos
 (Cat (lit false dashes)
 (Cat (Grp 1 (Few any))
 (Cat (lit false closing)
 (Cat (Grp 2 (Many any)) Eos)))).

(** What [load_skill] prints. *)
Inductive diag : Type :=
| MissingFrontmatter (p : text)       (* ... missing YAML frontmatter *)
| FrontmatterParseFailed (e : exn)    (* Failed to parse YAML frontmatter: ... *)
| MissingRequiredFields (p : text)    (* ... missing required fields (name or description) *)
| LoadFailed (p : text) (e : exn)     (* Failed to load skill (...): ... *)
| DirectoryMissing (p : text).        (* Skills directory does not exist: ... *)

Definition try_except {A} (body : outcome A) (handler : exn -> outcome A)
  : outcome A :=
  match body with
  | Return a => Return a
  | Raise e => handler e
  end.

Section Loader.
Variable W : world.

(** The body of the [try] of [load_skill]: what is printed, and what is
    returned. *)
Definition load_skill_try (skill_path : text)
  : outcome (list diag * option Skill) :=
  content <- read_text W skill_path ;;
  match re_match pattern_frontmatter content with
  | None => Return ([MissingFrontmatter skill_path], None)
  | Some frontmatter_match =>
      let frontmatter_text := group_str frontmatter_match 1 in
      let skill_content := strip (group_str frontmatter_match 2) in
      match safe_load W frontmatter_text with
      | Raise YAMLError => Return ([FrontmatterParseFailed YAMLError], None)
      | Raise e => Raise e
      | Return frontmatter =>
          has_name <- py_in (txt "name") frontmatter ;;
          missing <- (if negb has_name then Return true
                      else has_description <-
                             py_in (txt "description") frontmatter ;;
                           Return (negb has_description)) ;;
          if (missing : bool)
          then Return ([MissingRequiredFields skill_path], None)
          else
            let skill_dir := path_parent W skill_path in
            let processed_content :=
              process_skill_paths W skill_dir skill_content in
            n <- py_getitem frontmatter (txt "name") ;;
            d <- py_getitem frontmatter (txt "description") ;;
            l <- py_get frontmatter (txt "license") ;;
            a <- py_get frontmatter (txt "allowed-tools") ;;
            m <- py_get frontmatter (txt "metadata") ;;
            Return ([], Some {| name := n; description := d;
                                content := processed_content;
                                license := l; allowed_tools := a;
                                metadata := m;
                                skill_path := Some skill_path |})
      end
  end.

Definition load_skill (skill_path : text)
  : outcome (list diag * option Skill) :=
  try_except (load_skill_try skill_path)
             (fun e => Return ([LoadFailed skill_path e], None)).
End Loader.

(** ** The catalog: [SkillLoader] *)

(** A [dict] from header values to skills, in insertion order. *)
Definition dict := list (yaml * Skill).

Definition hashable (v : yaml) : bool :=
  match v with YSeq _ | YMap _ => false | _ => true end.

(** [a == b] on hashable header values ([True == 1] and [False == 0]). *)
Definition key_eqb (a b : yaml) : bool :=
  match a, b with
  | YNull, YNull => true
  | YStr s, YStr t => text_eqb s t
  | YBool x, YBool y => Bool.eqb x y
  | YInt x, YInt y => (x =? y)%Z
  | YBool x, YInt y => (y =? (if x then 1 else 0))%Z
  | YInt x, YBool y => (x =? (if y then 1 else 0))%Z
  | _, _ => false
  end.

Fixpoint dict_find (k : yaml) (d : dict) : option Skill :=
  match d with
  | [] => None
  | (k', v) :: d' => if key_eqb k' k then Some v else dict_find k d'
  end.

(** A present key keeps its place and its first spelling; a new key goes
    to the end. *)
Fixpoint dict_put (k : yaml) (v : Skill) (d : dict) : dict :=
  match d with
  | [] => [(k, v)]
  | (k', v') :: d' =>
      if key_eqb k' k then (k', v) :: d' else (k', v') :: dict_put k v d'
  end.

(** [d[k] = v] *)
Definition dict_setitem (k : yaml) (v : Skill) (d : dict) : outcome dict :=
  if hashable k then Return (dict_put k v d) else Raise TypeError.

(** [d.get(k)] *)
Definition dict_get (d : dict) (k : yaml) : outcome (option Skill) :=
  if hashable k then Return (dict_find k d) else Raise TypeError.

Record SkillLoader : Type := mkLoader {
  skills_dir : text;
  loaded_skills : dict;
  printed : list diag
}.

(** [SkillLoader(skills_dir)] *)
Definition new_loader (dir : text) : SkillLoader :=
  {| skills_dir := dir; loaded_skills := []; printed := [] |}.

Definition print (out : list diag) (self : SkillLoader) : SkillLoader :=
  {| skills_dir := skills_dir self; loaded_skills := loaded_skills self;
     printed := printed self ++ out |}.

Definition set_loaded (d : dict) (self : SkillLoader) : SkillLoader :=
  {| skills_dir := skills_dir self; loaded_skills := d;
     printed := printed self |}.

Section Catalog.
Variable W : world.

(** The [for] loop of [discover_skills]. *)
Fixpoint discover_loop (files : list text) (skills : list Skill)
         (self : SkillLoader) : SkillLoader * outcome (list Skill) :=
  match files with
  | [] => (self, Return skills)
  | skill_file :: rest =>
      match load_skill W skill_file with
      | Raise e => (self, Raise e)
      | Return (out, loaded) =>
          let self := print out self in
          match loaded with
          | Some skill =>
              match dict_setitem (name skill) skill (loaded_skills self) with
              | Return d =>
                  discover_loop rest (skills ++ [skill]) (set_loaded d self)
              | Raise e => (self, Raise e)
              end
          | None => discover_loop rest skills self
          end
      end
  end.

Definition discover_skills (self : SkillLoader)
  : SkillLoader * outcome (list Skill) :=
  if negb (path_exists W (skills_dir self))
  then (print [DirectoryMissing (skills_dir self)] self, Return [])
  else discover_loop (rglob W (skills_dir self)) [] self.

Definition get_skill (self : SkillLoader) (name : yaml)
  : outcome (option Skill) :=
  dict_get (loaded_skills self) name.

Definition list_skills (self : SkillLoader) : list yaml :=
  map fst (loaded_skills self).

Definition prompt_header : list text :=
  [ txt "## Available Skills" ++ [nl];
    txt "You have access to specialized skills. Each skill provides expert guidance for specific tasks." ++ [nl];
    txt "Load a skill's full content using the appropriate skill tool when needed." ++ [nl] ].

Definition prompt_line (skill : Skill) : text :=
  txt "- `" ++ py_str W (name skill) ++ txt "`: "
  ++ py_str W (description skill).

Definition get_skills_metadata_prompt (self : SkillLoader) : text :=
  match loaded_skills self with
  | [] => []
  | _ :: _ =>
      join [nl] (prompt_header ++ map prompt_line (map snd (loaded_skills self)))
  end.

(** ** [GetSkillTool.execute] *)

Record ToolResult : Type := mkToolResult {
  success : bool;
  tool_content : text;
  error : option text
}.

Definition execute (skill_loader : SkillLoader) (skill_name : text)
  : outcome ToolResult :=
  skill <- get_skill skill_loader (YStr skill_name) ;;
  match skill with
  | None =>
      available <- str_join (txt ", ") (list_skills skill_loader) ;;
      Return {| success := false; tool_content := [];
                error := Some (txt "技能 '" ++ skill_name
                               ++ txt "' 不存在。可用技能：" ++ available) |}
  | Some skill =>
      let result := to_prompt W skill in
      Return {| success := true; tool_content := result; error := None |}
  end.
End Catalog.

(** ** [skill_tool.py]: the tools built over a loader *)

(** [Path(s)], which is [Path(".") / s]. *)
Definition path_of (W : world) (s : text) : text := join_path W (txt ".") s.

(** The function [get_skill] that [create_deepagent_skill_tools] returns,
    bound to [loader]. *)
Definition deepagent_get_skill (W : world) (loader : SkillLoader)
           (skill_name : text) : outcome text :=
  skill <- get_skill loader (YStr skill_name) ;;
  match skill with
  | None =>
      available <- str_join (txt ", ") (list_skills loader) ;;
      Return (txt "错误：技能 '" ++ skill_name
              ++ txt "' 不存在。可用技能：" ++ available)
  | Some skill => Return (to_prompt W skill)
  end.

(** [create_skill_tools] and [create_deepagent_skill_tools]: the loader the
    returned tool is bound to, and the number of skills announced on the
    way. *)
Definition create_skill_tools (W : world) (skills_dir : text)
  : outcome (SkillLoader * nat) :=
  let loader := new_loader (path_of W skills_dir) in
  match discover_skills W loader with
  | (loader, Return skills) => Return (loader, length skills)
  | (_, Raise e) => Raise e
  end.

(** ** [skill_middleware.py]: [SkillsForgeMiddleware] *)

Definition skills_prompt_head : text :=
  [nl; nl]
  ++ txt "## Skills System (SkillsForge)"
  ++ [nl; nl]
  ++ txt "You have access to a skills library provided by SkillsForge that offers specialized capabilities and domain knowledge."
  ++ [nl; nl]
  ++ txt "**Available Skills:**"
  ++ [nl; nl].

Definition skills_prompt_tail : text :=
  [nl; nl]
  ++ txt "**How to Use Skills (Progressive Disclosure):**"
  ++ [nl; nl]
  ++ txt "Skills follow a **progressive disclosure** pattern - you see their name and description above, but only read full instructions when needed:"
  ++ [nl; nl]
  ++ txt "1. **Recognize when a skill applies**: Check if the user's task matches a skill's description"
  ++ [nl]
  ++ txt "2. **Load the skill's full instructions**: Use the `get_skill` tool with the skill name"
  ++ [nl]
  ++ txt "3. **Follow the skill's instructions**: The skill content contains step-by-step workflows, best practices, and examples"
  ++ [nl]
  ++ txt "4. **Access supporting files**: Skills may include helper scripts, configs, or reference docs"
  ++ [nl; nl]
  ++ txt "**When to Use Skills:**"
  ++ [nl]
  ++ txt "- User's request matches a skill's domain (e.g., "
  ++ [34%N]
  ++ txt "research X"
  ++ [34%N]
  ++ txt " -> web-research skill)"
  ++ [nl]
  ++ txt "- You need specialized knowledge or structured workflows"
  ++ [nl]
  ++ txt "- A skill provides proven patterns for complex tasks"
  ++ [nl; nl]
  ++ txt "Remember: Skills make you more capable and consistent. When in doubt, check if a skill exists for the task!"
  ++ [nl].

Record SkillsForgeMiddleware : Type := mkMiddleware {
  mw_skills_dir : text;          (* the [str] given to the constructor *)
  mw_skill_loader : SkillLoader;
  mw_skills : list Skill
}.

(** [SkillsForgeMiddleware(skills_dir=...)], with the number announced. *)
Definition middleware_init (W : world) (skills_dir : text)
  : outcome (SkillsForgeMiddleware * nat) :=
  let skill_loader := new_loader (path_of W skills_dir) in
  match discover_skills W skill_loader with
  | (skill_loader, Return skills) =>
      Return ({| mw_skills_dir := skills_dir;
                 mw_skill_loader := skill_loader;
                 mw_skills := skills |}, length skills)
  | (_, Raise e) => Raise e
  end.

Definition skills_list_line (W : world) (skill : Skill) : text :=
  txt "- **" ++ py_str W (name skill) ++ txt "**: "
  ++ py_str W (description skill).

(** [_format_skills_list] *)
Definition format_skills_list (W : world) (self : SkillsForgeMiddleware)
  : text :=
  match mw_skills self with
  | [] =>
      txt "(No skills available yet. You can create skills in "
      ++ mw_skills_dir self ++ txt ")"
  | _ :: _ => join [nl] (map (skills_list_line W) (mw_skills self))
  end.

(** A model request: its system prompt, and all the rest of it. *)
Record ModelRequest (A : Type) : Type := mkRequest {
  system_prompt : option text;
  request_rest : A
}.

(** [modify_request] *)
Definition modify_request (W : world) (self : SkillsForgeMiddleware)
           {A} (request : ModelRequest A) : ModelRequest A :=
  let skills_list := format_skills_list W self in
  let skills_section := skills_prompt_head ++ skills_list ++ skills_prompt_tail in
  let new_prompt :=
    match system_prompt request with
    | Some (c :: p) => (c :: p) ++ [nl; nl] ++ skills_section
    | _ => skills_section
    end in
  {| system_prompt := Some new_prompt; request_rest := request_rest request |}.

(** [wrap_model_call] *)
Definition wrap_model_call (W : world) (self : SkillsForgeMiddleware)
           {A B} (request : ModelRequest A) (handler : ModelRequest A -> B) : B :=
  let modified_request := modify_request W self request in
  handler modified_request.

(** ** [deepagent_example/bash_tool.py]: [run_bash_command] *)

(** What [subprocess.run] returns with [capture_output] and [text]. *)
Record CompletedProcess : Type := mkProcess {
  returncode : Z;
  stdout : text;
  stderr : text
}.

Definition allowed_prefixes : list text :=
  [txt "ls"; txt "cat"; txt "pwd"; txt "echo"; txt "grep"; txt "find"].

Section BashTool.
(** [subprocess.run(command, shell=True, ...)]: the completed process, or
    the text [str(e)] of the exception it raised. *)
Variable subprocess_run : text -> CompletedProcess + text.

Definition run_bash_command (command : text) : text :=
  if negb (existsb (fun prefix => starts_with prefix (strip command))
                   allowed_prefixes)
  then txt "Error: Command not allowed for security reasons."
  else
    match subprocess_run command with
    | inl result =>
        if (returncode result =? 0)%Z then firstn 1000 (stdout result)
        else txt "Error: " ++ stderr result
    | inr e => txt "Execution failed: " ++ e
    end.
End BashTool.

(** * Vocabulary of the properties

    Definitions used to state the properties, and concrete worlds to run
    the loader in. *)

(** ** The matcher against the language of a pattern

    [sem r w g g']: the word [w] belongs to [r], the groups [g] becoming
    [g'].  The anchors are given no condition here, so the relation bounds
    what the matcher accepts from above. *)

Inductive sem : regex -> text -> groups -> groups -> Prop :=
| sem_eps g : sem Eps [] g g
| sem_one p c g : p c = true -> sem (One p) [c] g g
| sem_cat a b w1 w2 g g1 g2 :
    sem a w1 g g1 -> sem b w2 g1 g2 -> sem (Cat a b) (w1 ++ w2) g g2
| sem_alt_l a b w g g' : sem a w g g' -> sem (Alt a b) w g g'
| sem_alt_r a b w g g' : sem b w g g' -> sem (Alt a b) w g g'
| sem_opt_some a w g g' : sem a w g g' -> sem (Opt a) w g g'
| sem_opt_none a g : sem (Opt a) [] g g
| sem_many p w g : forallb p w = true -> sem (Many p) w g g
| sem_few p w g : forallb p w = true -> sem (Few p) w g g
| sem_grp n a w g g' : sem a w g g' -> sem (Grp n a) w g ((n, w) :: g')
| sem_bos g : sem Bos [] g g
| sem_eos g : sem Eos [] g g.

(** A pattern that accepts the empty word. *)
Fixpoint nullable (r : regex) : bool :=
  match r with
  | One _ => false
  | Cat a b => nullable a && nullable b
  | Alt a b => nullable a || nullable b
  | Grp _ a => nullable a
  | _ => true
  end.

(** A pattern without [^]: how it matches does not depend on where in the
    subject the text at hand begins. *)
Fixpoint bos_free (r : regex) : bool :=
  match r with
  | Bos => false
  | Cat a b | Alt a b => bos_free a && bos_free b
  | Opt a | Grp _ a => bos_free a
  | _ => true
  end.

(** [same_folded w s]: [s] is the pattern word [w] up to the case folding
    of IGNORECASE. *)
Definition same_folded (w s : text) : Prop :=
  Forall2 (fun p c => ci p c = true) w s.

(** ** One pass of [re.sub] with a replacement that checks existence *)

Section Pass.
Variable len0 : nat.
Variable r : regex.
Variable found : text -> bool.
Variable target : rmatch -> text.
Variable render : rmatch -> text.

(** [rewritten s t]: [t] is [s] with some occurrences of the pattern,
    all of them with an existing target, replaced by their rendering;
    every other character is copied. *)
Inductive rewritten : text -> text -> Prop :=
| rw_end : rewritten [] []
| rw_copy c s t : rewritten s t -> rewritten (c :: s) (c :: t)
| rw_ref m rest t :
    sem r (whole m) [] (caps m) ->
    found (target m) = true ->
    rewritten rest t ->
    rewritten (whole m ++ rest) (render m ++ t).

(** No occurrence of the pattern in [s], at any position, has an
    existing target. *)
Fixpoint unresolved (s : text) : bool :=
  match match_at len0 r s with
  | Some m => negb (found (target m))
  | None => true
  end
  && match s with [] => true | _ :: s' => unresolved s' end.
End Pass.

(** ** The three passes of the rewriter: targets and renderings *)

Section References.
Variable W : world.
Variable skill_dir : text.

Definition dir_target (m : rmatch) : text :=
  join_path W skill_dir (group_str m 2).
Definition dir_render (m : rmatch) : text :=
  group_str m 1 ++ dir_target m.

Definition doc_target (m : rmatch) : text :=
  join_path W skill_dir (group_str m 2).
Definition doc_render (m : rmatch) : text :=
  group_str m 1 ++ txt "`" ++ doc_target m ++ txt "`" ++ use_read_file
  ++ group_str m 3.

Definition link_target (m : rmatch) : text :=
  join_path W skill_dir (clean_path (group_str m 3)).
Definition link_render (m : rmatch) : text :=
  match group m 1 with Some (c :: p) => c :: p | _ => [] end
  ++ txt "[" ++ group_str m 2 ++ txt "](`" ++ link_target m ++ txt "`)"
  ++ use_read_file.

(** None of the occurrences of the three patterns in [s] has an
    existing target. *)
Definition no_reference_resolves (s : text) : bool :=
  unresolved (length s) pattern_dirs (path_exists W) dir_target s
  && unresolved (length s) pattern_docs (path_exists W) doc_target s
  && unresolved (length s) pattern_markdown (path_exists W) link_target s.
End References.

(** ** Header blocks *)

(** The first place where [d] occurs in [s]: what precedes it and what
    follows it. *)
Fixpoint cut (d s : text) : option (text * text) :=
  if starts_with d s then Some ([], skipn (length d) s)
  else match s with
       | [] => None
       | c :: s' =>
           match cut d s' with
           | Some (a, b) => Some (c :: a, b)
           | None => None
           end
       end.

(** Header text and body of a document: the text between the opening line
    of dashes and the first closing one, and all that follows. *)
Definition frontmatter_parts (c : text) : option (text * text) :=
  if starts_with dashes c then cut closing (skipn (length dashes) c)
  else None.

(** No closing line begins in [h], when [h] is followed by a closing
    line. *)
Definition ends_at_first_closing (h : text) : bool :=
  negb (occurs closing (h ++ [nl] ++ txt "---")).

(** A document opens with a header block when its first line consists of
    three dashes and a later line consists of three dashes again. *)
Definition has_header_block (c : text) : bool :=
  starts_with dashes c && occurs closing (skipn (length dashes) c).

(** ** Names and the index *)

Definition names (skills : list Skill) : list yaml := map name skills.

(** The keys of a list, each kept where it occurs first. *)
Fixpoint first_occurrences (l : list yaml) : list yaml :=
  match l with
  | [] => []
  | k :: l' =>
      k :: filter (fun k1 => negb (key_eqb k k1)) (first_occurrences l')
  end.

Definition count_key (k : yaml) (l : list yaml) : nat :=
  length (filter (key_eqb k) l).

Definition has_key (k : yaml) (l : list yaml) : bool :=
  existsb (fun k1 => key_eqb k1 k) l.

(** What [d[k] = v] does to the keys. *)
Definition add_key (l : list yaml) (k : yaml) : list yaml :=
  if has_key k l then l else l ++ [k].

(** Keys that differ pairwise. *)
Definition distinct_keys (l : list yaml) : Prop :=
  ForallOrdPairs (fun a b => key_eqb a b = false) l.

(** ** A discovery pass *)

Section Pass_over_documents.
Variable W : world.

(** The skill a document yields, if any. *)
Definition parsed_one (f : text) : list Skill :=
  match load_skill W f with
  | Return (_, Some skill) => [skill]
  | _ => []
  end.

(** The skills of the documents that parse, in the order of the
    documents. *)
Definition parsed (files : list text) : list Skill :=
  flat_map parsed_one files.

(** A document that yields no skill. *)
Definition malformed (f : text) : bool :=
  match load_skill W f with
  | Return (_, Some _) => false
  | _ => true
  end.

Definition reports (files : list text) : list diag :=
  flat_map (fun f => match load_skill W f with
                     | Return (out, _) => out
                     | Raise _ => []
                     end) files.
End Pass_over_documents.

(** The index after the skills have been stored one by one. *)
Definition index (skills : list Skill) (d : dict) : dict :=
  fold_left (fun d skill => dict_put (name skill) skill d) skills d.

Definition all_hashable (skills : list Skill) : Prop :=
  Forall (fun skill => hashable (name skill) = true) skills.

(** The latest of the skills stored under a key. *)
Definition latest (k : yaml) (skills : list Skill) : option Skill :=
  find (fun skill => key_eqb (name skill) k) (rev skills).

(** The number of newline characters of a text. *)
Definition newlines (t : text) : nat := count_occ N.eq_dec t nl.

(** ** A concrete world, to run the loader on examples

    [PurePosixPath]: a path is a root and the components between slashes,
    empty components and [.] dropped; joining an absolute path replaces
    the left operand. *)

Fixpoint split_on (sep : N) (s : text) : list text :=
  match s with
  | [] => [[]]
  | c :: s' =>
      if (c =? sep)%N then [] :: split_on sep s'
      else match split_on sep s' with
           | p :: ps => (c :: p) :: ps
           | [] => [[c]]
           end
  end.

Definition posix_parts (p : text) : list text :=
  filter (fun x => negb (text_eqb x [] || text_eqb x (txt ".")))
         (split_on slash p).

Definition posix_root (p : text) : text :=
  match p with
  | 47%N :: 47%N :: 47%N :: _ => txt "/"
  | 47%N :: 47%N :: _ => txt "//"
  | 47%N :: _ => txt "/"
  | _ => []
  end.

Definition posix_str (root : text) (parts : list text) : text :=
  match root, parts with
  | [], [] => txt "."
  | _, _ => root ++ join (txt "/") parts
  end.

Definition posix_join (d r : text) : text :=
  if starts_with (txt "/") r then posix_str (posix_root r) (posix_parts r)
  else posix_str (posix_root d) (posix_parts d ++ posix_parts r).

Definition posix_parent (p : text) : text :=
  posix_str (posix_root p) (removelast (posix_parts p)).

(** ** A concrete world, continued: files and headers given by tables *)

Fixpoint table_get {A} (t : list (text * A)) (k : text) : option A :=
  match t with
  | [] => None
  | (k', v) :: t' => if text_eqb k' k then Some v else table_get t' k
  end.

(** [docs]: the SKILL.md files, in the order [rglob] yields them, with
    their contents; [headers]: what [yaml.safe_load] returns on the header
    texts that occur; [others]: the other paths that exist. *)
Definition table_world (docs : list (text * text))
           (headers : list (text * yaml)) (others : list text) : world :=
  {| join_path := posix_join;
     path_exists := fun p =>
       existsb (text_eqb p) (map fst docs ++ others);
     path_parent := posix_parent;
     rglob := fun _ => map fst docs;
     read_text := fun p =>
       match table_get docs p with
       | Some c => Return c
       | None => Raise OSError
       end;
     safe_load := fun h =>
       match table_get headers h with
       | Some v => Return v
       | None => Raise YAMLError
       end;
     repr_compound := fun _ => txt "[...]" |}.

Definition lines (l : list text) : text := join [nl] l.

Definition key (k : string) : yaml := YStr (txt k).

(** A root [skills] with four documents: a complete one whose script
    exists, one without a description, one without a header, and one whose
    header is empty. *)
Definition sample_world : world :=
  table_world
    [ (txt "skills/a/SKILL.md",
       lines [txt "---"; txt "name: alpha"; txt "description: Does A";
              txt "---"; txt "Run python scripts/run.py"; []]);
      (txt "skills/b/SKILL.md",
       lines [txt "---"; txt "name: beta"; txt "---"; txt "body"]);
      (txt "skills/c/SKILL.md",
       lines [txt "# Notes"; txt "no header here"]);
      (txt "skills/d/SKILL.md",
       lines [txt "---"; []; txt "---"; txt "body"]) ]
    [ (lines [txt "name: alpha"; txt "description: Does A"],
       YMap [(key "name", key "alpha"); (key "description", key "Does A")]);
      (txt "name: beta", YMap [(key "name", key "beta")]);
      ([], YNull) ]
    [ txt "skills"; txt "skills/a/scripts/run.py" ].

(** A document whose [name] is the empty string. *)
Definition empty_name_world : world :=
  table_world
    [ (txt "skills/e/SKILL.md",
       lines [txt "---"; txt "name: ''"; txt "description: Does E";
              txt "---"; txt "body"]) ]
    [ (lines [txt "name: ''"; txt "description: Does E"],
       YMap [(key "name", YStr []); (key "description", key "Does E")]) ]
    [ txt "skills" ].

(** A skill directory given by an absolute path, with one script and one
    note in it. *)
Definition pdf_world : world :=
  table_world [] []
    [txt "/skills/pdf/scripts/run.py"; txt "/skills/pdf/notes.md"].

(** A skill directory given by an absolute path, whose [scripts] hold an
    interpreter called [python] next to a script. *)
Definition interpreter_world : world :=
  table_world [] []
    [txt "/skills/pdf/scripts/python"; txt "/skills/pdf/scripts/run.py"].

(** A skill directory given relative to the working directory, under a
    root called [examples], that holds a copy of its own tree. *)
Definition nested_world : world :=
  table_world [] []
    [txt "examples/demo/notes.md";
     txt "examples/demo/examples/demo/notes.md"].

(** A root with three documents, the first and the third of which declare
    the same name. *)
Definition duplicate_world : world :=
  table_world
    [ (txt "skills/one/SKILL.md",
       lines [txt "---"; txt "name: x"; txt "description: First";
              txt "---"; txt "one"]);
      (txt "skills/two/SKILL.md",
       lines [txt "---"; txt "name: y"; txt "description: Other";
              txt "---"; txt "two"]);
      (txt "skills/three/SKILL.md",
       lines [txt "---"; txt "name: x"; txt "description: Second";
              txt "---"; txt "three"]) ]
    [ (lines [txt "name: x"; txt "description: First"],
       YMap [(key "name", key "x"); (key "description", key "First")]);
      (lines [txt "name: y"; txt "description: Other"],
       YMap [(key "name", key "y"); (key "description", key "Other")]);
      (lines [txt "name: x"; txt "description: Second"],
       YMap [(key "name", key "x"); (key "description", key "Second")]) ]
    [ txt "skills" ].

(** A document whose [name] is a YAML sequence. *)
Definition list_name_world : world :=
  table_world
    [ (txt "skills/l/SKILL.md",
       lines [txt "---"; txt "name: [a]"; txt "description: Listed";
              txt "---"; txt "body"]) ]
    [ (lines [txt "name: [a]"; txt "description: Listed"],
       YMap [(key "name", YSeq [key "a"]);
             (key "description", key "Listed")]) ]
    [ txt "skills" ].

(** A document whose header the YAML parser rejects. *)
Definition broken_header_world : world :=
  table_world
    [ (txt "skills/f/SKILL.md",
       lines [txt "---"; txt "name: [unclosed"; txt "---"; txt "body"]) ]
    []
    [ txt "skills" ].

(** A document whose header is a plain sentence, which YAML reads as one
    string. *)
Definition sentence_header_world : world :=
  table_world
    [ (txt "skills/g/SKILL.md",
       lines [txt "---"; txt "a name and a description"; txt "---";
              txt "body"]) ]
    [ (txt "a name and a description", key "a name and a description") ]
    [ txt "skills" ].

Definition skill_of (n d c p : string) : Skill :=
  {| name := key n; description := key d; content := txt c;
     license := YNull; allowed_tools := YNull; metadata := YNull;
     skill_path := Some (txt p) |}.

Definition x_first : Skill := skill_of "x" "First" "one" "skills/one/SKILL.md".
Definition y_other : Skill := skill_of "y" "Other" "two" "skills/two/SKILL.md".
Definition x_second : Skill :=
  skill_of "x" "Second" "three" "skills/three/SKILL.md".

(** * Properties *)

(** ** Text *)

Lemma text_eqb_eq a b : text_eqb a b = true <-> a = b.
Proof.
  unfold text_eqb. destruct (list_eq_dec N.eq_dec a b); split; congruence.
Qed.

Lemma text_eqb_refl a : text_eqb a a = true.
Proof. now apply text_eqb_eq. Qed.

Lemma starts_with_split p s :
  starts_with p s = true <-> exists r, s = p ++ r.
Proof.
  revert s; induction p as [|a p IH]; intros s; simpl.
  - split; eauto.
  - destruct s as [|b s].
    + split; [discriminate | intros [r Hr]; discriminate].
    + rewrite andb_true_iff, N.eqb_eq, IH. split.
      * intros [-> [r ->]]. now exists r.
      * intros [r Hr]. injection Hr as -> ->. eauto.
Qed.

Lemma occurs_split w s :
  occurs w s = true <-> exists a b, s = a ++ w ++ b.
Proof.
  induction s as [|c s IH]; simpl.
  - rewrite orb_false_r, starts_with_split. split.
    + intros [r Hr]. exists [], r. exact Hr.
    + intros [a [b H]]. destruct a; [now exists b|discriminate].
  - rewrite orb_true_iff, starts_with_split, IH. split.
    + intros [[r Hr] | [a [b H]]].
      * exists [], r. exact Hr.
      * exists (c :: a), b. simpl. now rewrite H.
    + intros [a [b H]]. destruct a as [|c' a].
      * left. now exists b.
      * right. injection H as _ H. eauto.
Qed.

(** ** The matcher against the language of a pattern *)

#[local] Hint Constructors sem : core.

Lemma taken_app (w rest : text) : taken (w ++ rest) rest = w.
Proof.
  unfold taken. rewrite length_app.
  replace (length w + length rest - length rest) with (length w) by lia.
  rewrite firstn_app, firstn_all, Nat.sub_diag. simpl. apply app_nil_r.
Qed.

Lemma taken_prefix (s s1 : text) : exists rest, s = taken s s1 ++ rest.
Proof.
  exists (skipn (length s - length s1) s). unfold taken.
  symmetry. apply firstn_skipn.
Qed.

Section MatcherSound.
Variable R : Type.
Variable len0 : nat.

Lemma many_sound p s g (k : cont R) res :
  many p s g k = Some res ->
  exists w rest, s = w ++ rest /\ forallb p w = true /\ k rest g = Some res.
Proof.
  induction s as [|c s IH]; simpl; intros H.
  - exists [], []. auto.
  - destruct (p c) eqn:Hp.
    + destruct (many p s g k) eqn:Hm.
      * injection H as ->. destruct (IH eq_refl) as (w & rest & -> & Hw & Hk).
        exists (c :: w), rest. simpl. rewrite Hp, Hw. auto.
      * exists [], (c :: s). auto.
    + exists [], (c :: s). auto.
Qed.

Lemma few_sound p s g (k : cont R) res :
  few p s g k = Some res ->
  exists w rest, s = w ++ rest /\ forallb p w = true /\ k rest g = Some res.
Proof.
  induction s as [|c s IH]; simpl; intros H.
  - destruct (k [] g) eqn:Hk; [|discriminate].
    exists [], []. rewrite Hk. auto.
  - destruct (k (c :: s) g) eqn:Hk.
    + exists [], (c :: s). rewrite Hk. auto.
    + destruct (p c) eqn:Hp; [|discriminate].
      destruct (IH H) as (w & rest & -> & Hw & Hk').
      exists (c :: w), rest. simpl. rewrite Hp, Hw. auto.
Qed.

Lemma run_sound r : forall s g (k : cont R) res,
  run len0 r s g k = Some res ->
  exists w rest g',
    s = w ++ rest /\ sem r w g g' /\ k rest g' = Some res.
Proof.
  induction r as [|p|a IHa b IHb|a IHa b IHb|a IHa|p|p|n a IHa| |];
    simpl; intros s g k res H.
  - exists [], s, g. auto.
  - destruct s as [|c s]; [discriminate|].
    destruct (p c) eqn:Hp; [|discriminate].
    exists [c], s, g. auto.
  - apply IHa in H. destruct H as (w1 & r1 & g1 & -> & Ha & H).
    apply IHb in H. destruct H as (w2 & r2 & g2 & -> & Hb & H).
    exists (w1 ++ w2), r2, g2. rewrite app_assoc. eauto.
  - destruct (run len0 a s g k) eqn:Ha.
    + rewrite <- H in *. apply IHa in Ha.
      destruct Ha as (w & rest & g' & -> & Hs & Hk).
      exists w, rest, g'. auto.
    + apply IHb in H. destruct H as (w & rest & g' & -> & Hs & Hk).
      exists w, rest, g'. auto.
  - destruct (run len0 a s g k) eqn:Ha.
    + rewrite <- H in *. apply IHa in Ha.
      destruct Ha as (w & rest & g' & -> & Hs & Hk).
      exists w, rest, g'. auto.
    + exists [], s, g. auto.
  - apply many_sound in H. destruct H as (w & rest & -> & Hw & Hk).
    exists w, rest, g. auto.
  - apply few_sound in H. destruct H as (w & rest & -> & Hw & Hk).
    exists w, rest, g. auto.
  - apply IHa in H. destruct H as (w & rest & g' & -> & Hs & Hk).
    rewrite taken_app in Hk. exists w, rest, ((n, w) :: g'). auto.
  - destruct (length s =? len0); [|discriminate]. exists [], s, g. auto.
  - destruct s as [|c [|c' s]]; try discriminate.
    + exists [], [], g. auto.
    + destruct (c =? nl)%N; [|discriminate]. exists [], [c], g. auto.
Qed.
End MatcherSound.

Lemma match_at_sound len0 r s m :
  match_at len0 r s = Some m ->
  sem r (whole m) [] (caps m) /\ exists rest, s = whole m ++ rest.
Proof.
  unfold match_at. intros H. apply run_sound in H.
  destruct H as (w & rest & g' & -> & Hs & Hk).
  injection Hk as <-. simpl. rewrite taken_app. eauto.
Qed.

Lemma sem_nullable r w g g' : sem r w g g' -> w = [] -> nullable r = true.
Proof.
  induction 1; simpl; intros Hw; try reflexivity; try discriminate; auto.
  - apply app_eq_nil in Hw. destruct Hw. rewrite IHsem1, IHsem2; auto.
  - rewrite IHsem; auto.
  - rewrite IHsem; auto using orb_true_r.
Qed.

Lemma match_at_nonempty len0 r s m :
  nullable r = false -> match_at len0 r s = Some m -> whole m <> [].
Proof.
  intros Hn H Hw. apply match_at_sound in H. destruct H as [H _].
  apply sem_nullable in H; congruence.
Qed.

(** ** What the words of the three patterns look like *)

Lemma sem_one_inv p s g g' :
  sem (One p) s g g' -> exists c, s = [c] /\ p c = true /\ g' = g.
Proof. intros H. inversion H; subst. eauto. Qed.

Lemma sem_cat_inv a b s g g' :
  sem (Cat a b) s g g' ->
  exists w1 w2 g1, s = w1 ++ w2 /\ sem a w1 g g1 /\ sem b w2 g1 g'.
Proof. intros H. inversion H; subst. eauto 7. Qed.

Lemma sem_lit_exact w : forall s g g',
  sem (lit false w) s g g' -> s = w /\ g' = g.
Proof.
  induction w as [|a w IH]; simpl; intros s g g' H.
  - inversion H; subst. auto.
  - apply sem_cat_inv in H. destruct H as (w1 & w2 & g1 & -> & H1 & H2).
    apply sem_one_inv in H1. destruct H1 as (c & -> & Hc & ->).
    apply IH in H2. destruct H2 as [-> ->].
    unfold chr in Hc. apply N.eqb_eq in Hc. subst. auto.
Qed.

Lemma sem_lit_folded w : forall s g g',
  sem (lit true w) s g g' -> same_folded w s /\ g' = g.
Proof.
  induction w as [|a w IH]; simpl; intros s g g' H.
  - inversion H; subst. split; [constructor | reflexivity].
  - apply sem_cat_inv in H. destruct H as (w1 & w2 & g1 & -> & H1 & H2).
    apply sem_one_inv in H1. destruct H1 as (c & -> & Hc & ->).
    apply IH in H2. destruct H2 as [Hw ->].
    split; [constructor; assumption | reflexivity].
Qed.

Lemma sem_many1 p s g g' :
  sem (many1 p) s g g' -> s <> [] /\ forallb p s = true /\ g' = g.
Proof.
  unfold many1. intros H.
  apply sem_cat_inv in H. destruct H as (w1 & w2 & g1 & -> & H1 & H2).
  apply sem_one_inv in H1. destruct H1 as (c & -> & Hc & ->).
  inversion H2; subst.
  repeat split; [discriminate|]. simpl. now rewrite Hc.
Qed.

Ltac sem_inv :=
  repeat match goal with
         | H : sem (Cat _ _) _ _ _ |- _ => inversion H; subst; clear H
         | H : sem (Grp _ _) _ _ _ |- _ => inversion H; subst; clear H
         | H : sem (Alt _ _) _ _ _ |- _ => inversion H; subst; clear H
         | H : sem (Opt _) _ _ _ |- _ => inversion H; subst; clear H
         | H : sem (One _) _ _ _ |- _ => inversion H; subst; clear H
         | H : sem (str _) _ _ _ |- _ =>
             apply sem_lit_exact in H; destruct H as [? ?]; subst
         | H : sem (istr _) _ _ _ |- _ =>
             apply sem_lit_folded in H; destruct H as [? ?]; subst
         | H : sem (many1 _) _ _ _ |- _ =>
             apply sem_many1 in H; destruct H as (? & ? & ?); subst
         end.

(** A directory reference: a backtick, or [python] and white space, then
    one of the four directory names, a slash and a run of characters
    other than white space, backtick and closing parenthesis. *)
Lemma pattern_dirs_words w g :
  sem pattern_dirs w [] g ->
  exists prefix d tail,
    w = prefix ++ d ++ txt "/" ++ tail
    /\ g = [(2, d ++ txt "/" ++ tail); (1, prefix)]
    /\ (prefix = txt "`"
        \/ exists ws, ws <> [] /\ forallb is_space ws = true
                      /\ prefix = txt "python" ++ ws)
    /\ In d [txt "scripts"; txt "examples"; txt "templates"; txt "reference"]
    /\ tail <> [] /\ forallb set_dirs tail = true.
Proof.
  unfold pattern_dirs. cbn [alts]. intros H. sem_inv.
  all: do 3 eexists; split; [reflexivity|]; split; [reflexivity|].
  all: split; [first [left; reflexivity | right; eauto] |].
  all: split; [cbn [In]; auto 6 | auto].
Qed.

Lemma sem_alts_istr (words : list string) w g g' :
  sem (alts (map istr words)) w g g' ->
  exists v, In v (map txt words) /\ same_folded v w /\ g' = g.
Proof.
  induction words as [|a [|b words] IH]; cbn [map alts]; intros H.
  - apply sem_one_inv in H. destruct H as (c & _ & Hc & _). discriminate.
  - apply sem_lit_folded in H. destruct H as [Hw ->].
    exists (txt a). cbn [In]. auto.
  - inversion H; subst.
    + apply sem_lit_folded in H5. destruct H5 as [Hw ->].
      exists (txt a). cbn [In]. auto.
    + apply IH in H5. destruct H5 as (v & Hv & Hw & ->).
      exists v. split; [right; exact Hv | auto].
Qed.

Lemma sem_opt_str a w g g' :
  sem (Opt (str a)) w g g' -> (w = [] \/ w = txt a) /\ g' = g.
Proof.
  intros H. inversion H; subst; [|auto].
  apply sem_lit_exact in H1. destruct H1 as [-> ->]. auto.
Qed.

(** An inline document mention: one of the four verbs in any case, white
    space, a bare file name with one of the four extensions in any case,
    and one character of punctuation or white space. *)
Lemma pattern_docs_words w g :
  sem pattern_docs w [] g ->
  exists verb ws stem ext suffix,
    w = verb ++ ws ++ (stem ++ txt "." ++ ext) ++ [suffix]
    /\ g = [(3, [suffix]); (2, stem ++ txt "." ++ ext); (1, verb)]
    /\ (exists v, In v (map txt ["see"; "read"; "refer to"; "check"]%string)
                  /\ same_folded v verb)
    /\ ws <> [] /\ forallb is_space ws = true
    /\ stem <> [] /\ forallb set_filename stem = true
    /\ (exists e, In e (map txt ["md"; "txt"; "json"; "yaml"]%string)
                  /\ same_folded e ext)
    /\ set_suffix suffix = true.
Proof.
  unfold pattern_docs. intros H.
  apply sem_cat_inv in H. destruct H as (verb & w1 & g1 & -> & Hverb & H).
  inversion Hverb as [| | | | | | | | |? ? ? ? ? Hv| |]; subst. clear Hverb.
  apply (sem_alts_istr ["see"; "read"; "refer to"; "check"]%string) in Hv.
  destruct Hv as (v & Hin & Hv & ->).
  apply sem_cat_inv in H. destruct H as (ws & w2 & g2 & -> & Hws & H).
  apply sem_many1 in Hws. destruct Hws as (Hne & Hsp & ->).
  apply sem_cat_inv in H. destruct H as (file & w3 & g3 & -> & Hfile & H).
  inversion Hfile as [| | | | | | | | |? ? ? ? ? Hf| |]; subst. clear Hfile.
  apply sem_cat_inv in Hf. destruct Hf as (stem & w4 & g4 & -> & Hstem & Hf).
  apply sem_many1 in Hstem. destruct Hstem as (Hsne & Hs & ->).
  apply sem_cat_inv in Hf. destruct Hf as (dot & ext & g5 & -> & Hdot & Hext).
  apply sem_lit_exact in Hdot. destruct Hdot as [-> ->].
  apply (sem_alts_istr ["md"; "txt"; "json"; "yaml"]%string) in Hext.
  destruct Hext as (e & Hein & He & ->).
  inversion H as [| | | | | | | | |? ? ? ? ? Hsuf| |]; subst. clear H.
  apply sem_one_inv in Hsuf. destruct Hsuf as (c & -> & Hc & ->).
  exists verb, ws, stem, ext, c. repeat split; eauto.
Qed.

(** A structured link: optionally one of the six lead verbs in any case
    and white space; a link text in square brackets, with or without a
    backtick at either end; and in parentheses a path, with or without a
    leading [./], that ends in a dot and one of the seven extensions. *)
Lemma pattern_markdown_words w g :
  sem pattern_markdown w [] g ->
  exists lead open_tick label close_tick dot_slash stem ext,
    w = lead ++ txt "[" ++ (open_tick ++ label ++ close_tick) ++ txt "]("
        ++ (dot_slash ++ stem ++ txt "." ++ ext) ++ txt ")"
    /\ (lead = []
        /\ g = [(3, dot_slash ++ stem ++ txt "." ++ ext);
                (2, open_tick ++ label ++ close_tick)]
        \/ exists verb ws v,
            lead = verb ++ ws
            /\ g = [(3, dot_slash ++ stem ++ txt "." ++ ext);
                    (2, open_tick ++ label ++ close_tick); (1, verb)]
            /\ In v (map txt ["Read"; "See"; "Check"; "Refer to"; "Load";
                              "View"]%string)
            /\ same_folded v verb
            /\ ws <> [] /\ forallb is_space ws = true)
    /\ (open_tick = [] \/ open_tick = txt "`")
    /\ label <> [] /\ forallb set_link_text label = true
    /\ (close_tick = [] \/ close_tick = txt "`")
    /\ (dot_slash = [] \/ dot_slash = txt "./")
    /\ stem <> [] /\ forallb set_link_path stem = true
    /\ (exists e, In e (map txt ["md"; "txt"; "json"; "yaml"; "js"; "py";
                                 "html"]%string)
                  /\ same_folded e ext).
Proof.
  unfold pattern_markdown. intros H.
  apply sem_cat_inv in H. destruct H as (lead & w1 & g1 & -> & Hlead & H).
  apply sem_cat_inv in H. destruct H as (br & w2 & g2 & -> & Hbr & H).
  apply sem_lit_exact in Hbr. destruct Hbr as [-> ->].
  apply sem_cat_inv in H. destruct H as (text & w3 & g3 & -> & Htext & H).
  inversion Htext as [| | | | | | | | |? ? ? ? ? Ht| |]; subst. clear Htext.
  apply sem_cat_inv in Ht. destruct Ht as (o1 & w4 & g4 & -> & Ho1 & Ht).
  apply sem_opt_str in Ho1. destruct Ho1 as [Ho1 ->].
  apply sem_cat_inv in Ht. destruct Ht as (label & o2 & g5 & -> & Hl & Ho2).
  apply sem_many1 in Hl. destruct Hl as (Hlne & Hl & ->).
  apply sem_opt_str in Ho2. destruct Ho2 as [Ho2 ->].
  apply sem_cat_inv in H. destruct H as (mid & w5 & g6 & -> & Hmid & H).
  apply sem_lit_exact in Hmid. destruct Hmid as [-> ->].
  apply sem_cat_inv in H. destruct H as (path & w6 & g7 & -> & Hpath & H).
  apply sem_lit_exact in H. destruct H as [-> ->].
  inversion Hpath as [| | | | | | | | |? ? ? ? ? Hp| |]; subst. clear Hpath.
  apply sem_cat_inv in Hp. destruct Hp as (ds & w7 & g8 & -> & Hds & Hp).
  apply sem_opt_str in Hds. destruct Hds as [Hds ->].
  apply sem_cat_inv in Hp. destruct Hp as (stem & w8 & g9 & -> & Hstem & Hp).
  apply sem_many1 in Hstem. destruct Hstem as (Hsne & Hs & ->).
  apply sem_cat_inv in Hp. destruct Hp as (dot & ext & g10 & -> & Hdot & Hext).
  apply sem_lit_exact in Hdot. destruct Hdot as [-> ->].
  apply (sem_alts_istr ["md"; "txt"; "json"; "yaml"; "js"; "py"; "html"]%string)
    in Hext.
  destruct Hext as (e & Hein & He & ->).
  exists lead, o1, label, o2, ds, stem, ext.
  split; [reflexivity|]. split; [|repeat split; eauto].
  inversion Hlead as [| | | | |? ? ? ? Hsome| | | | | |]; subst.
  - right.
    apply sem_cat_inv in Hsome.
    destruct Hsome as (verb & ws & g0 & -> & Hverb & Hws).
    inversion Hverb as [| | | | | | | | |? ? ? ? ? Hv| |]; subst. clear Hverb.
    apply (sem_alts_istr ["Read"; "See"; "Check"; "Refer to"; "Load";
                          "View"]%string) in Hv.
    destruct Hv as (v & Hin & Hv & ->).
    apply sem_many1 in Hws. destruct Hws as (Hwne & Hsp & ->).
    exists verb, ws, v. repeat split; auto.
  - left. auto.
Qed.

(** ** One pass of [re.sub] *)

Section Substitution.
Variable len0 : nat.
Variable r : regex.
Variable found : text -> bool.
Variable target : rmatch -> text.
Variable render : rmatch -> text.
Variable repl : rmatch -> text.

Hypothesis r_not_nullable : nullable r = false.
Hypothesis repl_cases :
  forall m, repl m = if found (target m) then render m else whole m.

Lemma rewritten_copy_app w s t :
  rewritten r found target render s t ->
  rewritten r found target render (w ++ s) (w ++ t).
Proof. intros H. induction w; simpl; auto using rw_copy. Qed.

Lemma whole_cons m c s n :
  (exists rest, c :: s = whole m ++ rest) -> length (whole m) = S n ->
  whole m ++ skipn n s = c :: s.
Proof.
  intros [rest Hr] Hl. destruct (whole m) as [|c' w]; [discriminate|].
  simpl in Hr, Hl. injection Hr as -> ->. injection Hl as <-.
  simpl. f_equal. f_equal.
  rewrite skipn_app, skipn_all, Nat.sub_diag. reflexivity.
Qed.

Lemma match_at_nil_none : match_at len0 r [] = None.
Proof.
  destruct (match_at len0 r []) as [m|] eqn:Hm; [|reflexivity].
  exfalso. pose proof (match_at_nonempty _ _ _ r_not_nullable Hm) as Hne.
  apply match_at_sound in Hm. destruct Hm as [_ [rest Hr]].
  symmetry in Hr. apply app_eq_nil in Hr. tauto.
Qed.

Lemma sub_from_rewritten s :
  forall skip,
    rewritten r found target render (skipn skip s)
              (sub_from len0 r repl skip s).
Proof.
  induction s as [|c s IH]; intros [|n]; simpl.
  - rewrite match_at_nil_none. constructor.
  - constructor.
  - destruct (match_at len0 r (c :: s)) as [m|] eqn:Hm.
    + pose proof (match_at_nonempty _ _ _ r_not_nullable Hm) as Hne.
      apply match_at_sound in Hm. destruct Hm as [Hsem Hpre].
      destruct (length (whole m)) as [|k] eqn:Hl.
      * destruct (whole m); [congruence|discriminate].
      * rewrite <- (whole_cons _ Hpre Hl). rewrite repl_cases.
        destruct (found (target m)) eqn:Hf.
        -- apply rw_ref; [assumption | assumption | apply (IH k)].
        -- apply rewritten_copy_app. apply (IH k).
    + apply rw_copy. apply (IH 0).
  - apply IH.
Qed.

Lemma sub_from_unresolved s :
  unresolved len0 r found target s = true ->
  forall skip, sub_from len0 r repl skip s = skipn skip s.
Proof.
  induction s as [|c s IH]; simpl; intros H [|n]; simpl.
  - now rewrite match_at_nil_none.
  - reflexivity.
  - apply andb_true_iff in H. destruct H as [Hhere Hrest].
    destruct (match_at len0 r (c :: s)) as [m|] eqn:Hm.
    + pose proof (match_at_nonempty _ _ _ r_not_nullable Hm) as Hne.
      apply match_at_sound in Hm. destruct Hm as [Hsem Hpre].
      destruct (length (whole m)) as [|k] eqn:Hl.
      * destruct (whole m); [congruence|discriminate].
      * rewrite repl_cases. apply negb_true_iff in Hhere. rewrite Hhere.
        rewrite (IH Hrest k). apply (whole_cons _ Hpre Hl).
    + f_equal. apply (IH Hrest 0).
  - apply andb_true_iff in H. destruct H as [_ Hrest]. apply (IH Hrest).
Qed.
End Substitution.

(** ** The three passes of the rewriter *)

Section RewriterFacts.
Variable W : world.
Variable skill_dir : text.

Lemma replace_dir_path_cases m :
  replace_dir_path W skill_dir m =
  if path_exists W (dir_target W skill_dir m)
  then dir_render W skill_dir m else whole m.
Proof. reflexivity. Qed.

Lemma replace_doc_path_cases m :
  replace_doc_path W skill_dir m =
  if path_exists W (doc_target W skill_dir m)
  then doc_render W skill_dir m else whole m.
Proof. reflexivity. Qed.

Lemma replace_markdown_link_cases m :
  replace_markdown_link W skill_dir m =
  if path_exists W (link_target W skill_dir m)
  then link_render W skill_dir m else whole m.
Proof. reflexivity. Qed.

Lemma process_skill_paths_fixed s :
  no_reference_resolves W skill_dir s = true ->
  process_skill_paths W skill_dir s = s.
Proof.
  unfold no_reference_resolves, process_skill_paths, re_sub. intros H.
  apply andb_true_iff in H. destruct H as [H H3].
  apply andb_true_iff in H. destruct H as [H1 H2].
  rewrite (@sub_from_unresolved _ pattern_dirs _ _ _ _ eq_refl
             replace_dir_path_cases _ H1 0).
  simpl skipn.
  rewrite (@sub_from_unresolved _ pattern_docs _ _ _ _ eq_refl
             replace_doc_path_cases _ H2 0).
  simpl skipn.
  apply (@sub_from_unresolved _ pattern_markdown _ _ _ _ eq_refl
           replace_markdown_link_cases _ H3 0).
Qed.
End RewriterFacts.

Example process_skill_paths_pdf :
  process_skill_paths pdf_world (txt "/skills/pdf")
    (txt "Run python scripts/run.py first, see notes.md. Read [Guide](./guide.md) and `scripts/gone.py`")
  = txt "Run python /skills/pdf/scripts/run.py first, see`/skills/pdf/notes.md` (use read_file to access). Read [Guide](./guide.md) and `scripts/gone.py`".
Proof. vm_compute. reflexivity. Qed.

(** ** C1 *)



(** ** C3 *)

(** With the skill directory [examples/demo], relative to the working
    directory, the first run inserts a path that starts with [examples/];
    the directory pattern matches it on the second run, and it resolves
    when the skill holds a copy of its own tree. *)
Example process_skill_paths_relative_root :
  let once :=
    process_skill_paths nested_world (txt "examples/demo")
                        (txt "see notes.md.") in
  once = txt "see`examples/demo/notes.md` (use read_file to access)."
  /\ process_skill_paths nested_world (txt "examples/demo") once
     = txt "see`examples/demo/examples/demo/notes.md` (use read_file to access).".
Proof. vm_compute. split; reflexivity. Qed.




(** ** The header pattern of [load_skill], computed *)

Lemma cut_split d s a b : cut d s = Some (a, b) -> s = a ++ d ++ b.
Proof.
  revert a b. induction s as [|c s IH]; intros a b; simpl.
  - destruct (starts_with d []) eqn:Hd; [|discriminate].
    intros H. injection H as <- <-. apply starts_with_split in Hd.
    destruct Hd as [r Hr]. symmetry in Hr. apply app_eq_nil in Hr.
    destruct Hr as [-> ->]. reflexivity.
  - destruct (starts_with d (c :: s)) eqn:Hd.
    + intros H. injection H as <- <-. apply starts_with_split in Hd.
      destruct Hd as [r Hr]. rewrite Hr at 2.
      rewrite skipn_app, skipn_all, Nat.sub_diag. simpl. exact Hr.
    + destruct (cut d s) as [[a' b']|]; [|discriminate].
      intros H. injection H as <- <-. simpl. f_equal. apply IH. reflexivity.
Qed.

Lemma cut_none d s : cut d s = None <-> occurs d s = false.
Proof.
  induction s as [|c s IH]; simpl.
  - destruct (starts_with d []); simpl; split; congruence.
  - destruct (starts_with d (c :: s)); simpl.
    + split; discriminate.
    + rewrite <- IH. destruct (cut d s) as [[a b]|]; split; congruence.
Qed.

Lemma taken_nil (s : text) : taken s [] = s.
Proof. unfold taken. simpl. rewrite Nat.sub_0_r. apply firstn_all. Qed.

Section FrontmatterRun.
Variable R : Type.
Variable len0 : nat.

Lemma run_lit w : forall s g (k : cont R),
  run len0 (lit false w) s g k =
  if starts_with w s then k (skipn (length w) s) g else None.
Proof.
  induction w as [|a w IH]; intros s g k; simpl.
  - reflexivity.
  - destruct s as [|b s]; [reflexivity|].
    unfold chr. destruct (a =? b)%N; simpl; [apply IH | reflexivity].
Qed.

Lemma few_ext p (k1 k2 : cont R) :
  (forall s g, k1 s g = k2 s g) -> forall s g, few p s g k1 = few p s g k2.
Proof.
  intros Hk s g. induction s as [|c s IH]; simpl; rewrite Hk.
  - reflexivity.
  - rewrite IH. reflexivity.
Qed.

Lemma few_any_cut d (F : text -> text -> groups -> R) s : forall pre g,
  few any s g (fun s1 g1 =>
                 if starts_with d s1
                 then Some (F (taken (pre ++ s) s1) (skipn (length d) s1) g1)
                 else None)
  = match cut d s with
    | Some (a, b) => Some (F (pre ++ a) b g)
    | None => None
    end.
Proof.
  induction s as [|c s IH]; intros pre g.
  - simpl. rewrite taken_nil. destruct (starts_with d []); reflexivity.
  - cbn [few cut]. rewrite taken_app.
    destruct (starts_with d (c :: s)); [now rewrite app_nil_r|].
    unfold any at 1.
    specialize (IH (pre ++ [c]) g). rewrite <- app_assoc in IH. simpl in IH.
    rewrite IH. destruct (cut d s) as [[a b]|]; [|reflexivity].
    rewrite <- app_assoc. reflexivity.
Qed.

Lemma many_any_to_end s g (k : cont R) res :
  k [] g = Some res -> many any s g k = Some res.
Proof.
  intros Hk. induction s as [|c s IH]; simpl; [exact Hk|].
  rewrite IH. reflexivity.
Qed.
End FrontmatterRun.

Lemma re_match_frontmatter c :
  re_match pattern_frontmatter c =
  match frontmatter_parts c with
  | Some (h, b) => Some {| whole := c; caps := [(2, b); (1, h)] |}
  | None => None
  end.
Proof.
  unfold re_match, match_at, pattern_frontmatter, frontmatter_parts.
  cbn [run]. rewrite Nat.eqb_refl.
  rewrite run_lit. destruct (starts_with dashes c); [|reflexivity].
  set (c' := skipn (length dashes) c).
  pose (F := fun (a b : text) (g : groups) =>
               {| whole := c; caps := (2, b) :: (1, a) :: g |}).
  transitivity (match cut closing c' with
                | Some (a, b) => Some (F ([] ++ a) b [])
                | None => None
                end).
  - rewrite <- (few_any_cut closing F c' [] []). apply few_ext.
    intros s g. rewrite run_lit.
    destruct (starts_with closing s); [|reflexivity].
    apply many_any_to_end. cbn [run]. unfold F. simpl app.
    rewrite !taken_nil. reflexivity.
  - destruct (cut closing c') as [[a b]|]; reflexivity.
Qed.

Lemma has_header_block_parts c :
  has_header_block c = false <-> frontmatter_parts c = None.
Proof.
  unfold has_header_block, frontmatter_parts.
  destruct (starts_with dashes c); simpl.
  - symmetry. apply cut_none.
  - tauto.
Qed.

Lemma has_header_block_split c :
  has_header_block c = true <->
  exists h b, c = dashes ++ h ++ closing ++ b.
Proof.
  unfold has_header_block. rewrite andb_true_iff, starts_with_split. split.
  - intros [[r ->] H]. rewrite skipn_app, skipn_all, Nat.sub_diag in H.
    simpl in H. apply occurs_split in H. destruct H as [a [b ->]]. eauto.
  - intros [h [b ->]]. split; [eauto|].
    rewrite skipn_app, skipn_all, Nat.sub_diag. simpl skipn. simpl app.
    apply occurs_split. exists h, b. reflexivity.
Qed.

(** ** [load_skill] *)

Lemma load_skill_try_parts W p :
  load_skill_try W p =
  (c <- read_text W p ;;
   match frontmatter_parts c with
   | None => Return ([MissingFrontmatter p], None)
   | Some (h, b) =>
       match safe_load W h with
       | Raise YAMLError => Return ([FrontmatterParseFailed YAMLError], None)
       | Raise e => Raise e
       | Return frontmatter =>
           has_name <- py_in (txt "name") frontmatter ;;
           missing <- (if negb has_name then Return true
                       else has_description <-
                              py_in (txt "description") frontmatter ;;
                            Return (negb has_description)) ;;
           if (missing : bool)
           then Return ([MissingRequiredFields p], None)
           else
             n <- py_getitem frontmatter (txt "name") ;;
             d <- py_getitem frontmatter (txt "description") ;;
             l <- py_get frontmatter (txt "license") ;;
             a <- py_get frontmatter (txt "allowed-tools") ;;
             m <- py_get frontmatter (txt "metadata") ;;
             Return ([], Some {| name := n; description := d;
                                 content := process_skill_paths W
                                              (path_parent W p) (strip b);
                                 license := l; allowed_tools := a;
                                 metadata := m; skill_path := Some p |})
       end
   end).
Proof.
  unfold load_skill_try. destruct (read_text W p) as [c|e]; [|reflexivity].
  cbn [bind]. rewrite re_match_frontmatter.
  destruct (frontmatter_parts c) as [[h b]|]; reflexivity.
Qed.

Ltac break_match :=
  match goal with
  | |- context [match ?x with _ => _ end] => destruct x eqn:?
  | H : context [match ?x with _ => _ end] |- _ => destruct x eqn:?
  end.

(** What a mapping header with both keys leads to. *)
Lemma load_skill_mapping W p c h b items n d :
  read_text W p = Return c ->
  frontmatter_parts c = Some (h, b) ->
  safe_load W h = Return (YMap items) ->
  lookup (txt "name") items = Some n ->
  lookup (txt "description") items = Some d ->
  load_skill W p =
  Return ([], Some {| name := n; description := d;
                      content := process_skill_paths W (path_parent W p)
                                                     (strip b);
                      license := match lookup (txt "license") items with
                                 | Some x => x | None => YNull end;
                      allowed_tools :=
                        match lookup (txt "allowed-tools") items with
                        | Some x => x | None => YNull end;
                      metadata := match lookup (txt "metadata") items with
                                  | Some x => x | None => YNull end;
                      skill_path := Some p |}).
Proof.
  intros Hc Hp Hy Hn Hd. unfold load_skill. rewrite load_skill_try_parts.
  rewrite Hc. cbn [bind]. rewrite Hp, Hy. cbn [py_in py_getitem py_get bind].
  rewrite Hn, Hd. reflexivity.
Qed.

(** A loaded skill comes from a mapping header that binds both keys. *)
Lemma load_skill_loaded W p out skill :
  load_skill W p = Return (out, Some skill) ->
  exists c h b items,
    read_text W p = Return c
    /\ frontmatter_parts c = Some (h, b)
    /\ safe_load W h = Return (YMap items)
    /\ lookup (txt "name") items = Some (name skill)
    /\ lookup (txt "description") items = Some (description skill).
Proof.
  unfold load_skill. rewrite load_skill_try_parts. intros H.
  destruct (read_text W p) as [c|e] eqn:Hc; [|discriminate].
  cbn [bind try_except] in H.
  destruct (frontmatter_parts c) as [[h b]|] eqn:Hp; [|discriminate].
  destruct (safe_load W h) as [v|e] eqn:Hy; [|destruct e; discriminate].
  destruct v as [| | | |l|items]; cbn [py_in bind] in H; try discriminate.
  - repeat (break_match; cbn [bind negb py_getitem] in H; try discriminate).
  - repeat (break_match; cbn [bind negb py_getitem] in H; try discriminate).
  - exists c, h, b, items.
    destruct (lookup (txt "name") items) as [n|] eqn:Hn;
      cbn [bind negb] in H; [|discriminate].
    destruct (lookup (txt "description") items) as [d|] eqn:Hd;
      cbn [bind negb] in H; [|discriminate].
    cbn [py_getitem py_get bind] in H. rewrite Hn, Hd in H.
    cbn [bind] in H. injection H as _ <-. auto.
Qed.

Example load_skill_alpha :
  load_skill sample_world (txt "skills/a/SKILL.md") =
  Return ([], Some {| name := key "alpha"; description := key "Does A";
                      content := txt "Run python skills/a/scripts/run.py";
                      license := YNull; allowed_tools := YNull;
                      metadata := YNull;
                      skill_path := Some (txt "skills/a/SKILL.md") |}).
Proof. vm_compute. reflexivity. Qed.

(** The body of the [try] does raise, on an empty header for one:
    [None] is not iterable. *)
Example load_skill_try_empty_header :
  load_skill_try sample_world (txt "skills/d/SKILL.md") = Raise TypeError
  /\ load_skill sample_world (txt "skills/d/SKILL.md")
     = Return ([LoadFailed (txt "skills/d/SKILL.md") TypeError], None).
Proof. vm_compute. split; reflexivity. Qed.

(** ** C6 *)

(** C6.  A document that does not open with a header block between two
    lines of three dashes is reported as missing its front matter and
    yields no skill. *)
Theorem load_skill_without_header_block (W : world) (p c : text) :
  read_text W p = Return c ->
  has_header_block c = false ->
  load_skill W p = Return ([MissingFrontmatter p], None).
Proof.
  intros Hc Hh. unfold load_skill. rewrite load_skill_try_parts, Hc.
  cbn [bind]. apply has_header_block_parts in Hh. rewrite Hh. reflexivity.
Qed.

Lemma load_skill_without_header_block_witness :
  load_skill sample_world (txt "skills/c/SKILL.md")
  = Return ([MissingFrontmatter (txt "skills/c/SKILL.md")], None).
Proof.
  apply (load_skill_without_header_block sample_world
           (txt "skills/c/SKILL.md")
           (c := lines [txt "# Notes"; txt "no header here"])).
  - vm_compute. reflexivity.
  - vm_compute. reflexivity.
Defined.

(** ** C7 *)

Lemma load_skill_returns (W : world) (p : text) :
  exists out loaded,
    load_skill W p = Return (out, loaded)
    /\ match loaded with
       | Some skill => out = [] /\ skill_path skill = Some p
       | None => exists d, out = [d]
       end.
Proof.
  assert (Hret : forall out loaded,
             match loaded with
             | Some skill => out = [] /\ skill_path skill = Some p
             | None => exists d : diag, out = [d]
             end ->
             exists out' loaded',
               Return (out, loaded) = Return (out', loaded')
               /\ match loaded' with
                  | Some skill => out' = [] /\ skill_path skill = Some p
                  | None => exists d : diag, out' = [d]
                  end)
    by (intros out loaded H; exists out, loaded; auto).
  unfold load_skill. rewrite load_skill_try_parts.
  destruct (read_text W p) as [c|e]; cbn [bind try_except];
    [|apply Hret; eauto].
  destruct (frontmatter_parts c) as [[h b]|]; [|apply Hret; eauto].
  destruct (safe_load W h) as [v|e]; [|destruct e; apply Hret; eauto].
  destruct v as [| | |s|l|items];
    cbn [py_in py_getitem py_get bind try_except];
    try (apply Hret; eauto; fail).
  - destruct (occurs (txt "name") s); cbn [negb bind try_except];
      [|apply Hret; eauto].
    destruct (occurs (txt "description") s); cbn [negb bind try_except];
      apply Hret; eauto.
  - destruct (existsb (is_str (txt "name")) l); cbn [negb bind try_except];
      [|apply Hret; eauto].
    destruct (existsb (is_str (txt "description")) l);
      cbn [negb bind try_except]; apply Hret; eauto.
  - destruct (lookup (txt "name") items); cbn [negb bind try_except];
      [|apply Hret; eauto].
    destruct (lookup (txt "description") items); cbn [negb bind try_except];
      apply Hret; simpl; eauto.
Qed.

(** C7.  [load_skill] returns for every document, whatever the file read,
    the header pattern and the YAML parser make of it: either a skill,
    with nothing printed, or no skill and one printed diagnostic. *)
Theorem load_skill_always_returns (W : world) (p : text) :
  exists out loaded,
    load_skill W p = Return (out, loaded)
    /\ match loaded with
       | Some skill => out = [] /\ skill_path skill = Some p
       | None => exists d, out = [d]
       end.
Proof. apply load_skill_returns. Qed.

(** ** C2 *)

(** C2, as stated, fails: a header that binds [name] to the empty string
    passes the check of the required fields, and the skill is built with
    the empty name. *)
Lemma load_skill_accepts_empty_name :
  load_skill empty_name_world (txt "skills/e/SKILL.md") =
  Return ([], Some {| name := YStr []; description := key "Does E";
                      content := txt "body";
                      license := YNull; allowed_tools := YNull;
                      metadata := YNull;
                      skill_path := Some (txt "skills/e/SKILL.md") |}).
Proof. vm_compute. reflexivity. Qed.

(** C2, amended.  A document whose header is a mapping without the key
    [name] or without the key [description] is reported as missing
    required fields and yields no skill; and every skill that [load_skill]
    builds comes from a mapping header and carries the values that header
    binds to [name] and to [description]. *)
Theorem load_skill_requires_both_keys (W : world) (p : text) :
  (forall c h b items,
      read_text W p = Return c ->
      frontmatter_parts c = Some (h, b) ->
      safe_load W h = Return (YMap items) ->
      lookup (txt "name") items = None
      \/ lookup (txt "description") items = None ->
      load_skill W p = Return ([MissingRequiredFields p], None))
  /\ (forall out skill,
         load_skill W p = Return (out, Some skill) ->
         exists c h b items,
           read_text W p = Return c
           /\ frontmatter_parts c = Some (h, b)
           /\ safe_load W h = Return (YMap items)
           /\ lookup (txt "name") items = Some (name skill)
           /\ lookup (txt "description") items = Some (description skill)).
Proof.
  split.
  - intros c h b items Hc Hp Hy Hmiss.
    unfold load_skill. rewrite load_skill_try_parts, Hc. cbn [bind].
    rewrite Hp, Hy. cbn [py_in bind].
    destruct (lookup (txt "name") items) as [n|]; cbn [negb bind];
      [|reflexivity].
    destruct Hmiss as [Hm|Hm]; [discriminate|]. rewrite Hm. reflexivity.
  - apply load_skill_loaded.
Qed.

Lemma load_skill_requires_both_keys_witness :
  load_skill sample_world (txt "skills/b/SKILL.md")
  = Return ([MissingRequiredFields (txt "skills/b/SKILL.md")], None).
Proof.
  apply (proj1 (load_skill_requires_both_keys sample_world
                  (txt "skills/b/SKILL.md"))
           (lines [txt "---"; txt "name: beta"; txt "---"; txt "body"])
           (txt "name: beta") (txt "body")
           [(key "name", key "beta")]).
  - vm_compute. reflexivity.
  - vm_compute. reflexivity.
  - vm_compute. reflexivity.
  - right. vm_compute. reflexivity.
Defined.

(** ** Keys of the catalog *)

Lemma key_eqb_sym a b : key_eqb a b = key_eqb b a.
Proof.
  destruct a, b; simpl; try reflexivity.
  - destruct b, b0; reflexivity.
  - apply Z.eqb_sym.
  - unfold text_eqb.
    destruct (list_eq_dec N.eq_dec s s0), (list_eq_dec N.eq_dec s0 s);
      congruence.
Qed.

Lemma key_eqb_hashable a b : key_eqb a b = true -> hashable a = true.
Proof. destruct a, b; simpl; congruence. Qed.

Lemma key_eqb_refl a : hashable a = true -> key_eqb a a = true.
Proof.
  destruct a; simpl; try congruence; intros _.
  - destruct b; reflexivity.
  - apply Z.eqb_refl.
  - apply text_eqb_refl.
Qed.

(** Equal keys compare alike with every third key. *)
Lemma key_eqb_cong a b c : key_eqb a b = true -> key_eqb a c = key_eqb b c.
Proof.
  destruct a as [|x|x|x|x|x], b as [|y|y|y|y|y]; simpl; try discriminate;
    intros H.
  - reflexivity.
  - apply eqb_prop in H. now subst.
  - apply Z.eqb_eq in H. subst.
    destruct c as [| z | z | | | ]; simpl; try reflexivity.
    + destruct x, z; reflexivity.
    + destruct x; apply Z.eqb_sym.
  - apply Z.eqb_eq in H. subst.
    destruct c as [| z | z | | | ]; simpl; try reflexivity.
    + destruct y, z; reflexivity.
    + destruct y; apply Z.eqb_sym.
  - apply Z.eqb_eq in H. now subst.
  - apply text_eqb_eq in H. now subst.
Qed.

Lemma key_eqb_trans a b c :
  key_eqb a b = true -> key_eqb b c = true -> key_eqb a c = true.
Proof. intros Hab Hbc. now rewrite (key_eqb_cong _ _ c Hab). Qed.

Lemma keys_dict_put k v d :
  map fst (dict_put k v d) = add_key (map fst d) k.
Proof.
  unfold add_key, has_key. induction d as [|[k1 v1] d IH]; simpl.
  - reflexivity.
  - destruct (key_eqb k1 k); simpl; [reflexivity|].
    rewrite IH. destruct (existsb _ (map fst d)); reflexivity.
Qed.

Lemma dict_find_put k v d q :
  dict_find q (dict_put k v d) =
  if key_eqb k q then Some v else dict_find q d.
Proof.
  induction d as [|[k1 v1] d IH]; simpl.
  - reflexivity.
  - destruct (key_eqb k1 k) eqn:H1; simpl.
    + rewrite (key_eqb_cong _ _ q H1). destruct (key_eqb k q); reflexivity.
    + rewrite IH. destruct (key_eqb k1 q) eqn:H2; [|reflexivity].
      destruct (key_eqb k q) eqn:H3; [|reflexivity].
      rewrite key_eqb_sym in H3.
      rewrite (key_eqb_trans _ _ _ H2 H3) in H1. discriminate.
Qed.

Lemma has_key_filter a k l :
  key_eqb a k = false ->
  has_key k (filter (fun k1 => negb (key_eqb a k1)) l) = has_key k l.
Proof.
  intros Ha. unfold has_key. induction l as [|b l IH]; simpl; [reflexivity|].
  destruct (key_eqb a b) eqn:Hab; simpl.
  - rewrite IH. rewrite <- (key_eqb_cong _ _ k Hab), Ha. reflexivity.
  - rewrite IH. reflexivity.
Qed.

Lemma has_key_first_occurrences k l :
  has_key k (first_occurrences l) = has_key k l.
Proof.
  induction l as [|a l IH]; simpl; [reflexivity|].
  destruct (key_eqb a k) eqn:Ha; simpl; [reflexivity|].
  fold (has_key k (filter (fun k1 => negb (key_eqb a k1)) (first_occurrences l))).
  rewrite has_key_filter by exact Ha. exact IH.
Qed.

Lemma first_occurrences_snoc l k :
  first_occurrences (l ++ [k]) = add_key (first_occurrences l) k.
Proof.
  unfold add_key. rewrite has_key_first_occurrences.
  induction l as [|a l IH]; simpl.
  - reflexivity.
  - rewrite IH. unfold has_key at 2. simpl. fold (has_key k l).
    destruct (has_key k l); simpl.
    + rewrite orb_true_r. reflexivity.
    + rewrite orb_false_r, filter_app. simpl.
      destruct (key_eqb a k); simpl; [now rewrite app_nil_r | reflexivity].
Qed.

Lemma fold_add_key ks l :
  fold_left add_key ks (first_occurrences l) = first_occurrences (l ++ ks).
Proof.
  revert l. induction ks as [|k ks IH]; intros l; simpl.
  - now rewrite app_nil_r.
  - rewrite <- first_occurrences_snoc, IH, <- app_assoc. reflexivity.
Qed.

Lemma count_key_filter_other a k l :
  key_eqb k a = false ->
  count_key k (filter (fun k1 => negb (key_eqb a k1)) l) = count_key k l.
Proof.
  intros Ha. unfold count_key. induction l as [|b l IH]; simpl; [reflexivity|].
  destruct (key_eqb a b) eqn:Hab; simpl.
  - rewrite key_eqb_sym in Ha. rewrite (key_eqb_sym k b).
    rewrite <- (key_eqb_cong _ _ k Hab), Ha. exact IH.
  - destruct (key_eqb k b); simpl; rewrite IH; reflexivity.
Qed.

Lemma count_key_filter_same a k l :
  key_eqb k a = true ->
  count_key k (filter (fun k1 => negb (key_eqb a k1)) l) = 0.
Proof.
  intros Ha. unfold count_key. induction l as [|b l IH]; simpl; [reflexivity|].
  destruct (key_eqb a b) eqn:Hab; simpl; [exact IH|].
  rewrite (key_eqb_cong _ _ b Ha), Hab. exact IH.
Qed.

(** A key that occurs is kept once. *)
Lemma count_key_first_occurrences k l :
  count_key k (first_occurrences l) = if has_key k l then 1 else 0.
Proof.
  induction l as [|a l IH]; simpl; [reflexivity|].
  unfold count_key, has_key. simpl. rewrite (key_eqb_sym a k).
  destruct (key_eqb k a) eqn:Ha; simpl.
  - fold (count_key k (filter (fun k1 => negb (key_eqb a k1)) (first_occurrences l))).
    now rewrite count_key_filter_same.
  - fold (count_key k (filter (fun k1 => negb (key_eqb a k1)) (first_occurrences l))).
    rewrite count_key_filter_other by exact Ha. exact IH.
Qed.

Lemma first_occurrences_length l :
  length (first_occurrences l) <= length l.
Proof.
  induction l as [|a l IH]; simpl; [lia|].
  pose proof (filter_length_le (fun k1 => negb (key_eqb a k1))
                               (first_occurrences l)).
  lia.
Qed.

Lemma first_occurrences_distinct l :
  distinct_keys l -> first_occurrences l = l.
Proof.
  induction 1 as [|a l Ha Hl IH]; simpl; [reflexivity|].
  rewrite IH. f_equal. apply forallb_filter_id.
  apply forallb_forall. intros b Hb. rewrite Forall_forall in Ha.
  now rewrite (Ha b Hb).
Qed.

(** ** A discovery pass *)

Section Discovery.
Variable W : world.

Lemma discover_loop_hashable files : forall skills self,
  all_hashable (parsed W files) ->
  discover_loop W files skills self =
  ({| skills_dir := skills_dir self;
      loaded_skills := index (parsed W files) (loaded_skills self);
      printed := printed self ++ reports W files |},
   Return (skills ++ parsed W files)).
Proof.
  induction files as [|f files IH]; intros skills self Hh.
  - simpl. rewrite !app_nil_r. destruct self; reflexivity.
  - cbn [discover_loop parsed reports flat_map] in *.
    unfold parsed_one in *.
    destruct (load_skill_returns W f) as (out & loaded & Hl & _).
    rewrite Hl in *. destruct loaded as [skill|].
    + apply Forall_app in Hh. destruct Hh as [Hs Hrest].
      apply Forall_inv in Hs. unfold dict_setitem. rewrite Hs.
      fold (parsed W files) (reports W files).
      rewrite (IH _ _ Hrest). simpl. rewrite <- !app_assoc. reflexivity.
    + fold (parsed W files) (reports W files).
      rewrite (IH _ _ Hh). simpl. rewrite <- !app_assoc. reflexivity.
Qed.

Lemma parsed_length files :
  length (parsed W files)
  = length files - length (filter (malformed W) files).
Proof.
  induction files as [|f files IH]; [reflexivity|].
  cbn [parsed flat_map filter]. fold (parsed W files).
  rewrite length_app, IH.
  pose proof (filter_length_le (malformed W) files) as Hle.
  unfold parsed_one. unfold malformed at 2.
  destruct (load_skill W f) as [[out [skill|]]|e];
    cbn [length Nat.add]; lia.
Qed.
End Discovery.

Lemma keys_index skills : forall d,
  map fst (index skills d) = fold_left add_key (names skills) (map fst d).
Proof.
  induction skills as [|skill skills IH]; intros d; simpl; [reflexivity|].
  unfold index in IH. rewrite IH, keys_dict_put. reflexivity.
Qed.

Lemma find_snoc {A} (f : A -> bool) l x :
  find f (l ++ [x]) = match find f l with Some y => Some y | None => find f [x] end.
Proof.
  induction l as [|a l IH]; simpl; [reflexivity|].
  destruct (f a); [reflexivity | exact IH].
Qed.

Lemma dict_find_index q skills : forall d,
  dict_find q (index skills d) =
  match latest q skills with
  | Some skill => Some skill
  | None => dict_find q d
  end.
Proof.
  unfold latest.
  induction skills as [|skill skills IH]; intros d; simpl; [reflexivity|].
  unfold index in IH. rewrite IH, find_snoc, dict_find_put. simpl.
  destruct (find _ (rev skills)); [reflexivity|].
  destruct (key_eqb (name skill) q); reflexivity.
Qed.

Lemma find_skip {A} (f : A -> bool) l x rest :
  (forall y, In y l -> f y = false) -> f x = true ->
  find f (l ++ x :: rest) = Some x.
Proof.
  intros Hl Hx. induction l as [|a l IH]; simpl.
  - now rewrite Hx.
  - rewrite (Hl a) by now left. apply IH. intros y Hy. apply Hl. now right.
Qed.

Lemma latest_app_last k pre skill post :
  key_eqb (name skill) k = true ->
  (forall other, In other post -> key_eqb (name other) k = false) ->
  latest k (pre ++ skill :: post) = Some skill.
Proof.
  intros Hk Hpost. unfold latest.
  rewrite rev_app_distr. simpl. rewrite <- app_assoc. simpl.
  apply find_skip; [|exact Hk].
  intros y Hy. apply Hpost. now apply in_rev.
Qed.

Lemma discover_skills_hashable W self :
  path_exists W (skills_dir self) = true ->
  all_hashable (parsed W (rglob W (skills_dir self))) ->
  discover_skills W self =
  ({| skills_dir := skills_dir self;
      loaded_skills := index (parsed W (rglob W (skills_dir self)))
                             (loaded_skills self);
      printed := printed self ++ reports W (rglob W (skills_dir self)) |},
   Return (parsed W (rglob W (skills_dir self)))).
Proof.
  intros He Hh. unfold discover_skills. rewrite He. simpl negb. cbv iota.
  now rewrite (discover_loop_hashable W _ [] self Hh).
Qed.

Lemma latest_of_member k skills skill :
  In skill skills -> key_eqb (name skill) k = true ->
  exists found, latest k skills = Some found.
Proof.
  intros Hin Hk. unfold latest.
  destruct (find (fun s => key_eqb (name s) k) (rev skills)) as [x|] eqn:Hf.
  - now exists x.
  - apply find_none with (x := skill) in Hf.
    + simpl in Hf. congruence.
    + apply in_rev. now rewrite rev_involutive.
Qed.

Example parsed_duplicate_world :
  parsed duplicate_world (rglob duplicate_world (txt "skills"))
  = [x_first; y_other; x_second].
Proof. vm_compute. reflexivity. Qed.

(** A name that is a list cannot be a key of the index: the assignment
    raises, out of [discover_skills]. *)
Example discover_skills_list_name :
  snd (discover_skills list_name_world (new_loader (txt "skills")))
  = Raise TypeError.
Proof. vm_compute. reflexivity. Qed.

(** ** C4 *)

(** C4, as stated, fails: of three documents that all parse, two declare
    the name [x]; discovery returns three skills and the index lists two
    names. *)
Lemma discovery_lists_fewer_names_than_skills :
  let files := rglob duplicate_world (txt "skills") in
  let pass := discover_skills duplicate_world (new_loader (txt "skills")) in
  length files = 3
  /\ length (filter (malformed duplicate_world) files) = 0
  /\ snd pass = Return [x_first; y_other; x_second]
  /\ list_skills (fst pass) = [key "x"; key "y"]
  /\ length (list_skills (fst pass)) <> 3 - 0.
Proof. vm_compute. repeat split. discriminate. Qed.

(** C4, amended.  Over an existing root with N documents of which M yield
    no skill, and with hashable names, discovery returns the N - M skills
    of the other documents in their order, and the index then lists each
    name once, so at most N - M names, and exactly N - M names when the
    names differ pairwise. *)
Theorem discovery_counts (W : world) (dir : text) :
  path_exists W dir = true ->
  all_hashable (parsed W (rglob W dir)) ->
  exists self',
    discover_skills W (new_loader dir) = (self', Return (parsed W (rglob W dir)))
    /\ length (parsed W (rglob W dir))
       = length (rglob W dir) - length (filter (malformed W) (rglob W dir))
    /\ list_skills self' = first_occurrences (names (parsed W (rglob W dir)))
    /\ length (list_skills self')
       <= length (rglob W dir) - length (filter (malformed W) (rglob W dir))
    /\ (distinct_keys (names (parsed W (rglob W dir))) ->
        length (list_skills self')
        = length (rglob W dir) - length (filter (malformed W) (rglob W dir))).
Proof.
  intros He Hh.
  pose proof (discover_skills_hashable W (new_loader dir) He Hh) as Hd.
  simpl in Hd. eexists. split; [exact Hd|].
  assert (Hkeys : list_skills
                    {| skills_dir := dir;
                       loaded_skills := index (parsed W (rglob W dir)) [];
                       printed := reports W (rglob W dir) |}
                  = first_occurrences (names (parsed W (rglob W dir)))).
  { unfold list_skills. simpl. rewrite keys_index. simpl.
    apply (fold_add_key _ []). }
  rewrite Hkeys, <- parsed_length. repeat split.
  - pose proof (first_occurrences_length (names (parsed W (rglob W dir)))).
    unfold names in *. rewrite length_map in *. assumption.
  - intros Hdist. rewrite (first_occurrences_distinct Hdist).
    unfold names. apply length_map.
Qed.

Lemma discovery_counts_witness :
  exists self',
    discover_skills sample_world (new_loader (txt "skills"))
    = (self', Return (parsed sample_world (rglob sample_world (txt "skills"))))
    /\ length (parsed sample_world (rglob sample_world (txt "skills"))) = 4 - 3
    /\ list_skills self' = [key "alpha"].
Proof.
  destruct (discovery_counts sample_world (txt "skills")) as (s & H1 & H2 & H3 & _).
  - vm_compute. reflexivity.
  - vm_compute. repeat constructor.
  - exists s. split; [exact H1|]. split; [exact H2|].
    rewrite H3. vm_compute. reflexivity.
Defined.

(** ** C5 *)

(** C5.  When two documents that parse declare the same name, the index
    holds that name once, [get_skill] returns for it the skill of the
    later document as that document gave it, and the pass returns rather
    than raises. *)
Theorem duplicate_name_last_wins (W : world) (dir : text) :
  path_exists W dir = true ->
  all_hashable (parsed W (rglob W dir)) ->
  exists self',
    discover_skills W (new_loader dir) = (self', Return (parsed W (rglob W dir)))
    /\ forall pre earlier mid later post,
        parsed W (rglob W dir) = pre ++ earlier :: mid ++ later :: post ->
        key_eqb (name earlier) (name later) = true ->
        (forall other, In other post ->
                       key_eqb (name other) (name later) = false) ->
        get_skill self' (name earlier) = Return (Some later)
        /\ get_skill self' (name later) = Return (Some later)
        /\ count_key (name later) (list_skills self') = 1.
Proof.
  intros He Hh.
  pose proof (discover_skills_hashable W (new_loader dir) He Hh) as Hd.
  simpl in Hd. eexists. split; [exact Hd|].
  intros pre earlier mid later post Hsplit Hsame Hpost.
  assert (Hlater : hashable (name later) = true).
  { rewrite key_eqb_sym in Hsame. exact (key_eqb_hashable _ _ Hsame). }
  assert (Hlast : forall k, key_eqb (name later) k = true ->
                            latest k (parsed W (rglob W dir)) = Some later).
  { intros k Hk. rewrite Hsplit.
    replace (pre ++ earlier :: mid ++ later :: post)
      with ((pre ++ earlier :: mid) ++ later :: post)
      by (rewrite <- app_assoc; reflexivity).
    apply latest_app_last; [exact Hk|].
    intros other Ho. rewrite <- (Hpost other Ho).
    symmetry. rewrite !(key_eqb_sym (name other)). apply key_eqb_cong.
    exact Hk. }
  unfold get_skill, dict_get, list_skills. simpl.
  rewrite Hlater, (key_eqb_hashable _ _ Hsame), !dict_find_index.
  rewrite (Hlast (name later) (key_eqb_refl _ Hlater)).
  rewrite (Hlast (name earlier)) by (now rewrite key_eqb_sym).
  repeat split.
  rewrite keys_index. simpl.
  rewrite (fold_add_key _ []). simpl.
  rewrite count_key_first_occurrences.
  replace (has_key (name later) (names (parsed W (rglob W dir)))) with true;
    [reflexivity|].
  symmetry. unfold has_key, names. apply existsb_exists.
  exists (name later). split; [|now apply key_eqb_refl].
  apply in_map. rewrite Hsplit. apply in_or_app. right. right.
  apply in_or_app. right. now left.
Qed.

Lemma duplicate_name_last_wins_witness :
  exists self',
    discover_skills duplicate_world (new_loader (txt "skills"))
    = (self', Return [x_first; y_other; x_second])
    /\ get_skill self' (key "x") = Return (Some x_second)
    /\ count_key (key "x") (list_skills self') = 1.
Proof.
  destruct (duplicate_name_last_wins duplicate_world (txt "skills"))
    as (s & H1 & H2).
  - vm_compute. reflexivity.
  - vm_compute. repeat constructor.
  - exists s. rewrite parsed_duplicate_world in H1, H2.
    split; [exact H1|].
    destruct (H2 [] x_first [y_other] x_second [] eq_refl) as (Ha & _ & Hc).
    + vm_compute. reflexivity.
    + intros other [].
    + split; [exact Ha | exact Hc].
Defined.

(** ** C10 *)

(** C10.  After a discovery pass over a loader whose names differ
    pairwise, [list_skills] holds every name at the place where it was
    met first, the name of every discovered skill once, while [get_skill]
    returns for that name the skill discovered last. *)
Theorem list_skills_keeps_first_positions (W : world) (self : SkillLoader) :
  path_exists W (skills_dir self) = true ->
  all_hashable (parsed W (rglob W (skills_dir self))) ->
  distinct_keys (list_skills self) ->
  exists self',
    discover_skills W self
    = (self', Return (parsed W (rglob W (skills_dir self))))
    /\ list_skills self'
       = first_occurrences
           (list_skills self ++ names (parsed W (rglob W (skills_dir self))))
    /\ forall skill,
        In skill (parsed W (rglob W (skills_dir self))) ->
        count_key (name skill) (list_skills self') = 1
        /\ exists found,
            latest (name skill) (parsed W (rglob W (skills_dir self)))
            = Some found
            /\ get_skill self' (name skill) = Return (Some found).
Proof.
  intros He Hh Hdist.
  pose proof (discover_skills_hashable W self He Hh) as Hd.
  eexists. split; [exact Hd|].
  assert (Hkeys : list_skills
                    {| skills_dir := skills_dir self;
                       loaded_skills :=
                         index (parsed W (rglob W (skills_dir self)))
                               (loaded_skills self);
                       printed := printed self
                                  ++ reports W (rglob W (skills_dir self)) |}
                  = first_occurrences
                      (list_skills self
                       ++ names (parsed W (rglob W (skills_dir self))))).
  { unfold list_skills at 1. simpl. rewrite keys_index.
    fold (list_skills self).
    rewrite <- (first_occurrences_distinct Hdist) at 1.
    apply fold_add_key. }
  split; [exact Hkeys|].
  intros skill Hin.
  assert (Hs : hashable (name skill) = true).
  { unfold all_hashable in Hh. rewrite Forall_forall in Hh. now apply Hh. }
  split.
  - rewrite Hkeys, count_key_first_occurrences.
    replace (has_key (name skill)
               (list_skills self
                ++ names (parsed W (rglob W (skills_dir self)))))
      with true; [reflexivity|].
    symmetry. unfold has_key. apply existsb_exists.
    exists (name skill). split; [|now apply key_eqb_refl].
    apply in_or_app. right. unfold names. now apply in_map.
  - destruct (latest_of_member _ _ _ Hin (key_eqb_refl _ Hs)) as [found Hf].
    exists found. split; [exact Hf|].
    unfold get_skill, dict_get. simpl. rewrite Hs, dict_find_index, Hf.
    reflexivity.
Qed.

Lemma list_skills_keeps_first_positions_witness :
  exists self',
    discover_skills duplicate_world (new_loader (txt "skills"))
    = (self', Return [x_first; y_other; x_second])
    /\ list_skills self' = [key "x"; key "y"]
    /\ get_skill self' (key "x") = Return (Some x_second).
Proof.
  destruct (list_skills_keeps_first_positions duplicate_world
              (new_loader (txt "skills"))) as (s & H1 & H2 & H3).
  - vm_compute. reflexivity.
  - vm_compute. repeat constructor.
  - constructor.
  - exists s. cbn [skills_dir new_loader] in H1, H2, H3.
    rewrite parsed_duplicate_world in H1, H2, H3.
    split; [exact H1|]. split.
    + rewrite H2. vm_compute. reflexivity.
    + destruct (H3 x_first) as (_ & found & Hf & Hg); [now left|].
      vm_compute in Hf. injection Hf as <-. exact Hg.
Defined.

(** ** C8 *)

Lemma newlines_app a b : newlines (a ++ b) = newlines a + newlines b.
Proof. apply count_occ_app. Qed.

Lemma newlines_join part parts :
  newlines (join [nl] (part :: parts))
  = newlines part + fold_right (fun p n => 1 + newlines p + n) 0 parts.
Proof.
  revert part. induction parts as [|q parts IH]; intros part.
  - simpl. lia.
  - change (join [nl] (part :: q :: parts))
      with (part ++ [nl] ++ join [nl] (q :: parts)).
    rewrite !newlines_app, IH. simpl. lia.
Qed.

Lemma newlines_lines (parts : list text) :
  (forall p, In p parts -> newlines p = 0) ->
  fold_right (fun p n => 1 + newlines p + n) 0 parts = length parts.
Proof.
  induction parts as [|p parts IH]; intros H; cbn [fold_right length];
    [reflexivity|].
  rewrite (H p) by now left. rewrite IH; [reflexivity|].
  intros q Hq. apply H. now right.
Qed.

Lemma fold_right_app_sum (f : text -> nat) a b :
  fold_right (fun p n => 1 + f p + n) 0 (a ++ b)
  = fold_right (fun p n => 1 + f p + n) 0 a
    + fold_right (fun p n => 1 + f p + n) 0 b.
Proof.
  induction a as [|x a IH]; cbn [fold_right app]; [reflexivity | rewrite IH; lia].
Qed.

Lemma prompt_lines_agree W (d1 : dict) : forall d2 : dict,
  map (fun entry => (name (snd entry), description (snd entry))) d1
  = map (fun entry => (name (snd entry), description (snd entry))) d2 ->
  map (prompt_line W) (map snd d1) = map (prompt_line W) (map snd d2).
Proof.
  induction d1 as [|e d1 IH]; intros [|e' d2] H; simpl in *;
    try discriminate; [reflexivity|].
  injection H as Hn Hd Hrest. unfold prompt_line at 1 3.
  rewrite Hn, Hd. f_equal. now apply IH.
Qed.

Lemma newlines_prompt_header (entries : list text) :
  newlines (join [nl] (prompt_header ++ entries))
  = 5 + fold_right (fun p n => 1 + newlines p + n) 0 entries.
Proof.
  unfold prompt_header. cbn [app]. rewrite newlines_join. cbn [fold_right].
  repeat match goal with
         | |- context [newlines (txt ?a ++ [nl])] =>
             let v := eval vm_compute in (newlines (txt a ++ [nl])) in
             change (newlines (txt a ++ [nl])) with v
         end.
  lia.
Qed.

(** C8, as stated, fails: for a catalog without skills the summary is the
    empty text, which holds no preamble. *)
Lemma metadata_prompt_of_empty_catalog :
  get_skills_metadata_prompt sample_world (new_loader (txt "skills")) = []
  /\ occurs (txt "## Available Skills")
            (get_skills_metadata_prompt sample_world
                                        (new_loader (txt "skills")))
     = false.
Proof. vm_compute. split; reflexivity. Qed.

(** C8, amended.  For a catalog without skills the summary is the empty
    text.  Otherwise it is the three parts of the fixed preamble followed
    by one entry per indexed skill, made of the name and the description
    of that skill, all joined by newlines; catalogs that agree on names
    and descriptions have the same summary, whatever the bodies; and when
    no entry holds a newline the summary has five newlines more than there
    are skills, so one line per skill after the six of the preamble. *)
Theorem metadata_prompt_shape (W : world) (self : SkillLoader) :
  (loaded_skills self = [] -> get_skills_metadata_prompt W self = [])
  /\ (loaded_skills self <> [] ->
      get_skills_metadata_prompt W self
      = join [nl] (prompt_header
                   ++ map (prompt_line W) (map snd (loaded_skills self))))
  /\ (forall other,
         map (fun entry => (name (snd entry), description (snd entry)))
             (loaded_skills other)
         = map (fun entry => (name (snd entry), description (snd entry)))
               (loaded_skills self) ->
         get_skills_metadata_prompt W other = get_skills_metadata_prompt W self)
  /\ (loaded_skills self <> [] ->
      (forall skill, In skill (map snd (loaded_skills self)) ->
                     newlines (prompt_line W skill) = 0) ->
      newlines (get_skills_metadata_prompt W self)
      = 5 + length (loaded_skills self)).
Proof.
  unfold get_skills_metadata_prompt. repeat split.
  - intros ->. reflexivity.
  - destruct (loaded_skills self); [congruence | reflexivity].
  - intros other Heq.
    pose proof (prompt_lines_agree W _ _ Heq) as Hlines.
    rewrite Hlines.
    destruct (loaded_skills other), (loaded_skills self);
      try reflexivity; discriminate.
  - intros Hne Hflat.
    destruct (loaded_skills self) as [|e d] eqn:Hd; [congruence|].
    rewrite <- Hd in *. clear Hd e d Hne.
    rewrite newlines_prompt_header.
    rewrite newlines_lines by (intros p Hp; apply in_map_iff in Hp;
                               destruct Hp as [skill [<- Hs]]; now apply Hflat).
    now rewrite !length_map.
Qed.

Lemma metadata_prompt_shape_witness :
  newlines (get_skills_metadata_prompt sample_world
              {| skills_dir := txt "skills";
                 loaded_skills := [(key "x", x_second); (key "y", y_other)];
                 printed := [] |})
  = 7.
Proof.
  apply (metadata_prompt_shape sample_world
           {| skills_dir := txt "skills";
              loaded_skills := [(key "x", x_second); (key "y", y_other)];
              printed := [] |}).
  - discriminate.
  - intros skill [<-|[<-|[]]]; vm_compute; reflexivity.
Defined.

(** ** C9 *)

(** [", ".join] raises when an indexed name is not a [str]. *)
Example execute_with_integer_name :
  execute sample_world
          {| skills_dir := txt "skills";
             loaded_skills := [(YInt 7, x_second)];
             printed := [] |}
          (txt "beta")
  = Raise TypeError.
Proof. vm_compute. reflexivity. Qed.

Lemma strs_of_strings (l : list text) : strs (map YStr l) = Some l.
Proof. induction l as [|s l IH]; simpl; [reflexivity | now rewrite IH]. Qed.

Lemma dict_find_absent (d : dict) (k : text) (indexed : list text) :
  map fst d = map YStr indexed -> ~ In k indexed ->
  dict_find (YStr k) d = None.
Proof.
  revert indexed. induction d as [|[k1 v1] d IH]; intros [|s indexed] Hk Hn;
    simpl in *; try discriminate; [reflexivity|].
  injection Hk as -> Hk. simpl.
  destruct (text_eqb s k) eqn:He.
  - apply text_eqb_eq in He. tauto.
  - apply (IH indexed); tauto.
Qed.



(** * Further properties of the catalog *)

Lemma find_all_false {A} (f : A -> bool) l :
  (forall x, In x l -> f x = false) -> find f l = None.
Proof.
  induction l as [|a l IH]; intros H; simpl; [reflexivity|].
  rewrite (H a) by now left. apply IH. intros x Hx. apply H. now right.
Qed.

Lemma latest_none k skills :
  latest k skills = None <->
  forall skill, In skill skills -> key_eqb (name skill) k = false.
Proof.
  unfold latest. split.
  - intros H skill Hin.
    apply (find_none _ _ H skill). apply in_rev. now rewrite rev_involutive.
  - intros H. apply find_all_false. intros x Hx. apply H. now apply in_rev.
Qed.

Lemma latest_some k skills skill :
  latest k skills = Some skill ->
  In skill skills /\ key_eqb (name skill) k = true.
Proof.
  unfold latest. intros H. apply find_some in H. destruct H as [Hin Hk].
  split; [now apply in_rev | exact Hk].
Qed.

(** X1.  After a discovery pass on a new loader, [get_skill] returns for
    every hashable name the skill declared last under that name, which is
    one of the returned skills and bears the name asked for, and [None]
    exactly when no document that parsed declares the name. *)
Theorem get_skill_after_discovery (W : world) (dir : text) (k : yaml) :
  path_exists W dir = true ->
  all_hashable (parsed W (rglob W dir)) ->
  hashable k = true ->
  exists self',
    discover_skills W (new_loader dir)
    = (self', Return (parsed W (rglob W dir)))
    /\ get_skill self' k = Return (latest k (parsed W (rglob W dir)))
    /\ (forall skill,
           get_skill self' k = Return (Some skill) ->
           In skill (parsed W (rglob W dir))
           /\ key_eqb (name skill) k = true)
    /\ (get_skill self' k = Return None <->
        forall skill, In skill (parsed W (rglob W dir)) ->
                      key_eqb (name skill) k = false).
Proof.
  intros He Hh Hk.
  pose proof (discover_skills_hashable W (new_loader dir) He Hh) as Hd.
  simpl in Hd. eexists. split; [exact Hd|].
  assert (Hget : get_skill
                   {| skills_dir := dir;
                      loaded_skills := index (parsed W (rglob W dir)) [];
                      printed := reports W (rglob W dir) |} k
                 = Return (latest k (parsed W (rglob W dir)))).
  { unfold get_skill, dict_get. simpl. rewrite Hk, dict_find_index.
    destruct (latest k (parsed W (rglob W dir))); reflexivity. }
  rewrite Hget. split; [reflexivity|]. split.
  - intros skill H. injection H as H. now apply latest_some.
  - rewrite <- latest_none. split; congruence.
Qed.

Lemma get_skill_after_discovery_witness :
  exists self',
    discover_skills duplicate_world (new_loader (txt "skills"))
    = (self', Return [x_first; y_other; x_second])
    /\ get_skill self' (key "x") = Return (Some x_second)
    /\ get_skill self' (key "z") = Return None.
Proof.
  destruct (get_skill_after_discovery duplicate_world (txt "skills") (key "x"))
    as (s & H1 & H2 & _).
  - vm_compute. reflexivity.
  - vm_compute. repeat constructor.
  - reflexivity.
  - exists s. rewrite parsed_duplicate_world in H1, H2.
    split; [exact H1|]. split; [exact H2|].
    destruct (get_skill_after_discovery duplicate_world (txt "skills")
                (key "z")) as (s' & H1' & H2' & _).
    + vm_compute. reflexivity.
    + vm_compute. repeat constructor.
    + reflexivity.
    + rewrite parsed_duplicate_world in H1', H2'.
      rewrite H1 in H1'. injection H1' as <-. exact H2'.
Defined.

Lemma fold_add_key_extends ks : forall l,
  exists added, fold_left add_key ks l = l ++ added.
Proof.
  induction ks as [|k ks IH]; intros l; simpl.
  - exists []. now rewrite app_nil_r.
  - destruct (IH (add_key l k)) as [added Ha]. rewrite Ha.
    unfold add_key. destruct (has_key k l).
    + now exists added.
    + exists ([k] ++ added). now rewrite <- app_assoc.
Qed.

(** X2.  A discovery pass on a loader that already holds skills removes
    and moves none of its names, and leaves the entry of every name that
    no newly parsed document declares as it was. *)
Theorem discover_skills_keeps_index (W : world) (self : SkillLoader) :
  path_exists W (skills_dir self) = true ->
  all_hashable (parsed W (rglob W (skills_dir self))) ->
  exists self',
    discover_skills W self
    = (self', Return (parsed W (rglob W (skills_dir self))))
    /\ skills_dir self' = skills_dir self
    /\ (exists added, list_skills self' = list_skills self ++ added)
    /\ (forall k,
           (forall skill, In skill (parsed W (rglob W (skills_dir self))) ->
                          key_eqb (name skill) k = false) ->
           get_skill self' k = get_skill self k).
Proof.
  intros He Hh.
  pose proof (discover_skills_hashable W self He Hh) as Hd.
  eexists. split; [exact Hd|]. split; [reflexivity|]. split.
  - unfold list_skills. simpl. rewrite keys_index.
    apply fold_add_key_extends.
  - intros k Hnone. unfold get_skill, dict_get. simpl.
    rewrite dict_find_index.
    apply latest_none in Hnone. rewrite Hnone. reflexivity.
Qed.

Lemma discover_skills_keeps_index_witness :
  exists self',
    discover_skills duplicate_world
      {| skills_dir := txt "skills";
         loaded_skills := [(key "w", y_other)];
         printed := [] |}
    = (self', Return [x_first; y_other; x_second])
    /\ (exists added, list_skills self' = [key "w"] ++ added)
    /\ get_skill self' (key "w") = Return (Some y_other).
Proof.
  destruct (discover_skills_keeps_index duplicate_world
              {| skills_dir := txt "skills";
                 loaded_skills := [(key "w", y_other)];
                 printed := [] |}) as (s & H1 & _ & H3 & H4).
  - vm_compute. reflexivity.
  - vm_compute. repeat constructor.
  - exists s. cbn [skills_dir] in H1, H4.
    rewrite parsed_duplicate_world in H1, H4.
    split; [exact H1|]. split; [exact H3|].
    rewrite (H4 (key "w")); [reflexivity|].
    intros skill [<-|[<-|[<-|[]]]]; reflexivity.
Defined.

(** X3.  When the skills directory does not exist, discovery on a new
    loader prints one warning and returns no skill, whatever [rglob] and
    the files would give; the loader then lists no name, its summary is
    the empty text, and looking any name up fails with a message that
    names no available skill. *)
Theorem discover_skills_missing_root (W : world) (dir : text) :
  path_exists W dir = false ->
  exists self',
    discover_skills W (new_loader dir) = (self', Return [])
    /\ printed self' = [DirectoryMissing dir]
    /\ list_skills self' = []
    /\ get_skills_metadata_prompt W self' = []
    /\ forall skill_name,
        execute W self' skill_name
        = Return {| success := false; tool_content := [];
                    error := Some (txt "技能 '" ++ skill_name
                                   ++ txt "' 不存在。可用技能：") |}.
Proof.
  intros He. unfold discover_skills. simpl skills_dir. rewrite He.
  eexists. split; [reflexivity|]. repeat split.
Qed.

Lemma discover_skills_missing_root_witness :
  exists self',
    discover_skills sample_world (new_loader (txt "nowhere"))
    = (self', Return [])
    /\ printed self' = [DirectoryMissing (txt "nowhere")].
Proof.
  destruct (discover_skills_missing_root sample_world (txt "nowhere"))
    as (s & H1 & H2 & _).
  - vm_compute. reflexivity.
  - exists s. split; assumption.
Defined.

Lemma occurs_app_r w a s : occurs w s = true -> occurs w (a ++ s) = true.
Proof.
  intros H. apply occurs_split in H. destruct H as (x & y & ->).
  apply occurs_split. exists (a ++ x), y. now rewrite <- app_assoc.
Qed.

Lemma occurs_app_l w s b : occurs w s = true -> occurs w (s ++ b) = true.
Proof.
  intros H. apply occurs_split in H. destruct H as (x & y & ->).
  apply occurs_split. exists x, (y ++ b). now rewrite <- !app_assoc.
Qed.

Lemma occurs_refl w : occurs w w = true.
Proof. apply occurs_split. exists [], []. now rewrite app_nil_r. Qed.

Lemma occurs_join sep part parts :
  In part parts -> occurs part (join sep parts) = true.
Proof.
  induction parts as [|p parts IH]; intros Hin; [destruct Hin|].
  destruct parts as [|q parts].
  - destruct Hin as [->|[]]. apply occurs_refl.
  - change (join sep (p :: q :: parts))
      with (p ++ sep ++ join sep (q :: parts)).
    destruct Hin as [->|Hin].
    + apply occurs_app_l, occurs_refl.
    + apply occurs_app_r, occurs_app_r, IH, Hin.
Qed.

(** X4.  The summary of a catalog names every indexed skill: it begins
    with the heading and holds, for each entry of the index, the line of
    that skill, hence its name and its description as an f-string writes
    them. *)
Theorem metadata_prompt_advertises
        (W : world) (self : SkillLoader) (k : yaml) (skill : Skill) :
  In (k, skill) (loaded_skills self) ->
  starts_with (txt "## Available Skills") (get_skills_metadata_prompt W self)
  = true
  /\ occurs (prompt_line W skill) (get_skills_metadata_prompt W self) = true
  /\ occurs (py_str W (name skill)) (get_skills_metadata_prompt W self) = true
  /\ occurs (py_str W (description skill))
            (get_skills_metadata_prompt W self) = true.
Proof.
  intros Hin. unfold get_skills_metadata_prompt.
  destruct (loaded_skills self) as [|e d] eqn:Hd; [destruct Hin|].
  rewrite <- Hd in *.
  assert (Hline : occurs (prompt_line W skill)
                    (join [nl] (prompt_header
                                ++ map (prompt_line W)
                                       (map snd (loaded_skills self))))
                  = true).
  { apply occurs_join. apply in_or_app. right.
    apply in_map. apply (in_map snd) in Hin. exact Hin. }
  split; [|split; [exact Hline|split]].
  - apply starts_with_split. unfold prompt_header. cbn [app].
    eexists. cbn [join]. rewrite <- !app_assoc. reflexivity.
  - apply occurs_split in Hline. destruct Hline as (a & b & ->).
    apply occurs_app_r, occurs_app_l. unfold prompt_line.
    apply occurs_app_r, occurs_app_l, occurs_refl.
  - apply occurs_split in Hline. destruct Hline as (a & b & ->).
    apply occurs_app_r, occurs_app_l. unfold prompt_line.
    apply occurs_app_r, occurs_app_r, occurs_app_r, occurs_refl.
Qed.

Lemma metadata_prompt_advertises_witness :
  occurs (txt "- `y`: Other")
    (get_skills_metadata_prompt sample_world
       {| skills_dir := txt "skills";
          loaded_skills := [(key "x", x_second); (key "y", y_other)];
          printed := [] |})
  = true.
Proof.
  apply (metadata_prompt_advertises sample_world
           {| skills_dir := txt "skills";
              loaded_skills := [(key "x", x_second); (key "y", y_other)];
              printed := [] |} (key "y") y_other).
  right. left. reflexivity.
Defined.

Lemma distinct_keys_before l1 x l2 :
  distinct_keys (l1 ++ x :: l2) ->
  forall a, In a l1 -> key_eqb a x = false.
Proof.
  unfold distinct_keys.
  induction l1 as [|b l1 IH]; intros H a Hin; [destruct Hin|].
  simpl in H. inversion H as [|? ? Hb Hrest]; subst.
  destruct Hin as [->|Hin].
  - rewrite Forall_forall in Hb. apply Hb. apply in_or_app. right. now left.
  - now apply IH.
Qed.

Lemma dict_put_new k v d :
  has_key k (map fst d) = false -> dict_put k v d = d ++ [(k, v)].
Proof.
  unfold has_key. induction d as [|[k1 v1] d IH]; simpl; [reflexivity|].
  intros H. apply orb_false_iff in H. destruct H as [H1 H2].
  rewrite H1, IH by exact H2. reflexivity.
Qed.

Lemma index_distinct skills : forall d,
  distinct_keys (map fst d ++ names skills) ->
  index skills d = d ++ map (fun skill => (name skill, skill)) skills.
Proof.
  induction skills as [|skill skills IH]; intros d Hd; simpl.
  - now rewrite app_nil_r.
  - rewrite dict_put_new.
    + unfold index in IH. rewrite IH.
      * now rewrite <- app_assoc.
      * rewrite map_app. simpl. now rewrite <- app_assoc.
    + unfold has_key. apply not_true_is_false. intros H.
      apply existsb_exists in H. destruct H as (a & Ha & Hk).
      simpl in Hd. rewrite (distinct_keys_before _ _ _ Hd a Ha) in Hk.
      discriminate.
Qed.



Lemma fold_add_key_present ks : forall l,
  (forall k, In k ks -> has_key k l = true) -> fold_left add_key ks l = l.
Proof.
  induction ks as [|k ks IH]; intros l H; simpl; [reflexivity|].
  unfold add_key at 2. rewrite (H k) by now left.
  apply IH. intros q Hq. apply H. now right.
Qed.

Lemma first_occurrences_incl l k : In k (first_occurrences l) -> In k l.
Proof.
  induction l as [|a l IH]; simpl; [tauto|].
  intros [->|H]; [now left|]. apply filter_In in H. right. tauto.
Qed.

Lemma distinct_keys_filter f l :
  distinct_keys l -> distinct_keys (filter f l).
Proof.
  unfold distinct_keys. induction 1 as [|a l Ha Hl IH]; simpl.
  - constructor.
  - destruct (f a); [|exact IH]. constructor; [|exact IH].
    rewrite Forall_forall in *. intros x Hx. apply filter_In in Hx.
    apply Ha. tauto.
Qed.

Lemma first_occurrences_distinct_keys l : distinct_keys (first_occurrences l).
Proof.
  induction l as [|a l IH]; simpl; [constructor|].
  constructor.
  - apply Forall_forall. intros x Hx. apply filter_In in Hx.
    destruct Hx as [_ Hx]. now apply negb_true_iff in Hx.
  - now apply distinct_keys_filter.
Qed.

(** Two indexes with the same keys, all hashable and pairwise different,
    that answer alike are the same. *)
Lemma dict_ext (d1 : dict) : forall d2 : dict,
  map fst d1 = map fst d2 ->
  distinct_keys (map fst d1) ->
  (forall k, In k (map fst d1) -> hashable k = true) ->
  (forall k, In k (map fst d1) -> dict_find k d1 = dict_find k d2) ->
  d1 = d2.
Proof.
  induction d1 as [|[k v1] d1 IH]; intros [|[k' v2] d2] Hk Hd Hh Hf;
    try discriminate; [reflexivity|].
  simpl in Hk. injection Hk as <- Hk.
  inversion Hd as [|? ? Hhead Hrest]; subst.
  pose proof (Hf k (or_introl eq_refl)) as Hv. simpl in Hv.
  rewrite (key_eqb_refl _ (Hh k (or_introl eq_refl))) in Hv.
  injection Hv as <-. f_equal. apply IH; auto.
  - intros q Hq. apply Hh. now right.
  - intros q Hq. pose proof (Hf q (or_intror Hq)) as Hq'. simpl in Hq'.
    rewrite Forall_forall in Hhead. rewrite (Hhead q Hq) in Hq'. exact Hq'.
Qed.

Lemma index_twice skills :
  all_hashable skills -> index skills (index skills []) = index skills [].
Proof.
  intros Hh.
  assert (Hkeys : map fst (index skills []) = first_occurrences (names skills))
    by (rewrite keys_index; apply (fold_add_key _ [])).
  assert (Hin : forall k, In k (names skills) -> hashable k = true).
  { intros k Hk. unfold names in Hk. apply in_map_iff in Hk.
    destruct Hk as (skill & <- & Hs).
    unfold all_hashable in Hh. rewrite Forall_forall in Hh. now apply Hh. }
  assert (Hsame : map fst (index skills (index skills []))
                  = map fst (index skills [])).
  { rewrite keys_index. apply fold_add_key_present.
    intros k Hk. rewrite Hkeys, has_key_first_occurrences.
    unfold has_key. apply existsb_exists. exists k.
    split; [exact Hk | apply key_eqb_refl; now apply Hin]. }
  apply dict_ext.
  - exact Hsame.
  - rewrite Hsame, Hkeys. apply first_occurrences_distinct_keys.
  - intros k Hk. rewrite Hsame, Hkeys in Hk.
    apply Hin. now apply first_occurrences_incl.
  - intros k _. rewrite !dict_find_index.
    destruct (latest k skills); reflexivity.
Qed.

(** X6.  Running discovery a second time on the same loader, the files
    being what they were, returns the same skills and leaves the index as
    the first run left it; only the reports are printed again. *)
Theorem discover_skills_twice (W : world) (dir : text) :
  path_exists W dir = true ->
  all_hashable (parsed W (rglob W dir)) ->
  exists once twice,
    discover_skills W (new_loader dir)
    = (once, Return (parsed W (rglob W dir)))
    /\ discover_skills W once = (twice, Return (parsed W (rglob W dir)))
    /\ loaded_skills twice = loaded_skills once
    /\ printed twice = printed once ++ printed once.
Proof.
  intros He Hh.
  pose proof (discover_skills_hashable W (new_loader dir) He Hh) as H1.
  simpl in H1. eexists. eexists. split; [exact H1|].
  rewrite discover_skills_hashable; simpl; auto.
  split; [reflexivity|]. split; [|reflexivity].
  now apply index_twice.
Qed.

Lemma discover_skills_twice_witness :
  exists once twice,
    discover_skills duplicate_world (new_loader (txt "skills"))
    = (once, Return [x_first; y_other; x_second])
    /\ discover_skills duplicate_world once
       = (twice, Return [x_first; y_other; x_second])
    /\ loaded_skills twice = loaded_skills once.
Proof.
  destruct (discover_skills_twice duplicate_world (txt "skills"))
    as (s1 & s2 & H1 & H2 & H3 & _).
  - vm_compute. reflexivity.
  - vm_compute. repeat constructor.
  - exists s1, s2. rewrite parsed_duplicate_world in H1, H2. auto.
Defined.

(** * Further properties of [load_skill] *)

Lemma cut_unfold d s :
  cut d s =
  if starts_with d s then Some ([], skipn (length d) s)
  else match s with
       | [] => None
       | c :: s' =>
           match cut d s' with
           | Some (a, b) => Some (c :: a, b)
           | None => None
           end
       end.
Proof. destruct s; reflexivity. Qed.

Lemma starts_with_firstn d : forall y k,
  starts_with d y = true -> length d <= k ->
  starts_with d (firstn k y) = true.
Proof.
  induction d as [|a d IH]; intros y k H Hk; [reflexivity|].
  destruct y as [|b y]; [discriminate|]. simpl in H, Hk.
  destruct k as [|k]; [lia|]. simpl.
  apply andb_true_iff in H. destruct H as [-> H].
  apply IH; [exact H | lia].
Qed.

Lemma starts_with_app_firstn d : forall x y k,
  starts_with d (x ++ y) = true -> length d <= length x + k ->
  starts_with d (x ++ firstn k y) = true.
Proof.
  induction d as [|a d IH]; intros x y k H Hk; [reflexivity|].
  destruct x as [|c x].
  - cbn [app length Nat.add] in *. now apply starts_with_firstn.
  - simpl in *. apply andb_true_iff in H. destruct H as [-> H].
    apply IH; [exact H | lia].
Qed.

Lemma cut_first_closing h b :
  ends_at_first_closing h = true ->
  cut closing (h ++ closing ++ b) = Some (h, b).
Proof.
  unfold ends_at_first_closing. rewrite negb_true_iff.
  induction h as [|c h IH]; intros Hno.
  - reflexivity.
  - simpl in Hno. apply orb_false_iff in Hno. destruct Hno as [Hhere Hrest].
    rewrite cut_unfold.
    assert (Hsw : starts_with closing ((c :: h) ++ closing ++ b) = false).
    { apply not_true_is_false. intros H.
      apply (starts_with_app_firstn closing (c :: h) (closing ++ b) 4) in H.
      - change (firstn 4 (closing ++ b)) with ([nl] ++ txt "---") in H.
        simpl in H. simpl in Hhere. congruence.
      - simpl. lia. }
    rewrite Hsw. cbn [app]. rewrite IH by exact Hrest. reflexivity.
Qed.

Lemma frontmatter_parts_assembled h b :
  ends_at_first_closing h = true ->
  frontmatter_parts (dashes ++ h ++ closing ++ b) = Some (h, b).
Proof.
  intros H. unfold frontmatter_parts.
  replace (starts_with dashes (dashes ++ h ++ closing ++ b)) with true
    by (symmetry; apply starts_with_split; eauto).
  rewrite skipn_app, skipn_all, Nat.sub_diag. simpl skipn. simpl app at 1.
  now apply cut_first_closing.
Qed.

(** X7.  The header pattern splits a document at the first closing line
    of dashes: for a header text in which no closing line begins, the
    document made of the opening line, the header, the closing line and
    any body whatever, also one with further lines of dashes, matches
    with the header as group 1 and the whole body as group 2. *)
Theorem frontmatter_match_assembled (h b : text) :
  ends_at_first_closing h = true ->
  re_match pattern_frontmatter (dashes ++ h ++ closing ++ b)
  = Some {| whole := dashes ++ h ++ closing ++ b;
            caps := [(2, b); (1, h)] |}.
Proof.
  intros H. rewrite re_match_frontmatter, frontmatter_parts_assembled by exact H.
  reflexivity.
Qed.

Lemma frontmatter_match_assembled_witness :
  re_match pattern_frontmatter
    (dashes ++ txt "name: x" ++ closing
     ++ lines [txt "Intro"; txt "---"; txt "More"])
  = Some {| whole := dashes ++ txt "name: x" ++ closing
                     ++ lines [txt "Intro"; txt "---"; txt "More"];
            caps := [(2, lines [txt "Intro"; txt "---"; txt "More"]);
                     (1, txt "name: x")] |}.
Proof.
  apply (frontmatter_match_assembled (txt "name: x")
           (lines [txt "Intro"; txt "---"; txt "More"])).
  vm_compute. reflexivity.
Defined.



(** X9.  An exception of the YAML parser never leaves [load_skill] and
    never yields a skill: a [YAMLError] is reported as a failure to parse
    the front matter, any other exception as a failure to load the
    skill. *)
Theorem load_skill_header_exception
        (W : world) (p c h b : text) (e : exn) :
  read_text W p = Return c ->
  frontmatter_parts c = Some (h, b) ->
  safe_load W h = Raise e ->
  load_skill W p
  = Return ([match e with
             | YAMLError => FrontmatterParseFailed YAMLError
             | _ => LoadFailed p e
             end], None).
Proof.
  intros Hc Hp Hy. unfold load_skill. rewrite load_skill_try_parts, Hc.
  cbn [bind]. rewrite Hp, Hy. destruct e; reflexivity.
Qed.

Lemma load_skill_header_exception_witness :
  load_skill broken_header_world (txt "skills/f/SKILL.md")
  = Return ([FrontmatterParseFailed YAMLError], None).
Proof.
  apply (@load_skill_header_exception broken_header_world
           (txt "skills/f/SKILL.md")
           (lines [txt "---"; txt "name: [unclosed"; txt "---"; txt "body"])
           (txt "name: [unclosed") (txt "body") YAMLError).
  - vm_compute. reflexivity.
  - vm_compute. reflexivity.
  - vm_compute. reflexivity.
Defined.



(** ** The first character of a rewritten body *)

Lemma hd_error_app (a b : text) : a <> [] -> hd_error (a ++ b) = hd_error a.
Proof. destruct a; [congruence | reflexivity]. Qed.

Lemma rewritten_head r found target render s t :
  (forall m, sem r (whole m) [] (caps m) ->
             whole m <> [] /\ hd_error (render m) = hd_error (whole m)) ->
  rewritten r found target render s t -> hd_error t = hd_error s.
Proof.
  intros Hhead H. destruct H as [|c s t H|m rest t Hsem Hf H];
    [reflexivity | reflexivity |].
  destruct (Hhead m Hsem) as [Hne Hhd].
  rewrite (hd_error_app _ Hne), <- Hhd. apply hd_error_app.
  intros Hr. rewrite Hr in Hhd. destruct (whole m); [congruence|discriminate].
Qed.

Lemma same_folded_nonempty v s : same_folded v s -> v <> [] -> s <> [].
Proof. intros H Hv. destruct H; congruence. Qed.

Lemma dir_render_head W skill_dir m :
  sem pattern_dirs (whole m) [] (caps m) ->
  whole m <> []
  /\ hd_error (dir_render W skill_dir m) = hd_error (whole m).
Proof.
  intros H. apply pattern_dirs_words in H.
  destruct H as (prefix & d & tail & Hw & Hg & Hp & _).
  destruct m as [w g]. simpl in Hw, Hg. subst w g.
  assert (Hne : prefix <> []).
  { destruct Hp as [->|(ws & _ & _ & ->)]; discriminate. }
  unfold dir_render, group_str. simpl.
  rewrite !(hd_error_app _ Hne). split; [|reflexivity].
  destruct prefix; [congruence | discriminate].
Qed.

Lemma doc_render_head W skill_dir m :
  sem pattern_docs (whole m) [] (caps m) ->
  whole m <> []
  /\ hd_error (doc_render W skill_dir m) = hd_error (whole m).
Proof.
  intros H. apply pattern_docs_words in H.
  destruct H as (verb & ws & stem & ext & suffix & Hw & Hg & Hv & _).
  destruct m as [w g]. simpl in Hw, Hg. subst w g.
  assert (Hne : verb <> []).
  { destruct Hv as (v & Hin & Hv). apply (same_folded_nonempty Hv).
    simpl in Hin. intuition (subst; discriminate). }
  unfold doc_render, group_str. simpl.
  rewrite !(hd_error_app _ Hne). split; [|reflexivity].
  destruct verb; [congruence | discriminate].
Qed.

Lemma link_render_head W skill_dir m :
  sem pattern_markdown (whole m) [] (caps m) ->
  whole m <> []
  /\ hd_error (link_render W skill_dir m) = hd_error (whole m).
Proof.
  intros H. apply pattern_markdown_words in H.
  destruct H as (lead & o1 & label & o2 & ds & stem & ext & Hw & Hlead & _).
  destruct m as [w g]. simpl in Hw. subst w.
  destruct Hlead as [[-> Hg]|(verb & ws & v & -> & Hg & Hin & Hv & _)];
    simpl in Hg; subst g.
  - unfold link_render, group. simpl. split; [discriminate | reflexivity].
  - assert (Hne : verb <> []).
    { apply (same_folded_nonempty Hv).
      simpl in Hin. intuition (subst; discriminate). }
    unfold link_render, group. simpl.
    destruct verb as [|c verb]; [congruence|]. simpl.
    split; [discriminate | reflexivity].
Qed.

Lemma process_skill_paths_head W skill_dir s :
  hd_error (process_skill_paths W skill_dir s) = hd_error s.
Proof.
  unfold process_skill_paths, re_sub.
  pose proof (@sub_from_rewritten (length s) pattern_dirs _ _ _ _ eq_refl
                (replace_dir_path_cases W skill_dir) s 0) as H1.
  set (t1 := sub_from (length s) pattern_dirs
                      (replace_dir_path W skill_dir) 0 s) in *.
  pose proof (@sub_from_rewritten (length t1) pattern_docs _ _ _ _ eq_refl
                (replace_doc_path_cases W skill_dir) t1 0) as H2.
  set (t2 := sub_from (length t1) pattern_docs
                      (replace_doc_path W skill_dir) 0 t1) in *.
  pose proof (@sub_from_rewritten (length t2) pattern_markdown _ _ _ _ eq_refl
                (replace_markdown_link_cases W skill_dir) t2 0) as H3.
  simpl skipn in H1, H2, H3.
  rewrite (rewritten_head (link_render_head W skill_dir) H3).
  rewrite (rewritten_head (doc_render_head W skill_dir) H2).
  apply (rewritten_head (dir_render_head W skill_dir) H1).
Qed.

Lemma lstrip_head s c rest : lstrip s = c :: rest -> is_space c = false.
Proof.
  induction s as [|a s IH]; simpl; [discriminate|].
  destruct (is_space a) eqn:Ha; [exact IH|].
  intros H. injection H as <- _. exact Ha.
Qed.

Lemma lstrip_blank s : lstrip s = [] <-> forallb is_space s = true.
Proof.
  induction s as [|a s IH]; simpl; [tauto|].
  destruct (is_space a); simpl; [exact IH|]. split; discriminate.
Qed.

Lemma lstrip_stop l c r :
  is_space c = false -> exists l', lstrip (l ++ c :: r) = l' ++ c :: r.
Proof.
  intros Hc. induction l as [|a l IH]; simpl.
  - rewrite Hc. now exists [].
  - destruct (is_space a); [exact IH|]. now exists (a :: l).
Qed.

(** Stripping on the right keeps a beginning that ends in a character
    other than white space. *)
Lemma rstrip_keeps a c t :
  is_space c = false -> exists t', rstrip (a ++ c :: t) = a ++ c :: t'.
Proof.
  intros Hc. unfold rstrip. rewrite rev_app_distr. simpl.
  rewrite <- app_assoc. simpl.
  destruct (@lstrip_stop (rev t) c (rev a) Hc) as [l' Hl]. rewrite Hl.
  rewrite rev_app_distr. simpl. rewrite rev_involutive, <- app_assoc.
  now exists (rev l').
Qed.

Lemma strip_head s : hd_error (strip s) = hd_error (lstrip s).
Proof.
  unfold strip. destruct (lstrip s) as [|c rest] eqn:Hl; [reflexivity|].
  destruct (@rstrip_keeps [] c rest (@lstrip_head s c rest Hl)) as [t' Ht].
  simpl in Ht. now rewrite Ht.
Qed.

(** X11.  The text of a loaded skill begins with the first character of
    the document body that is not white space, whatever the rewriter
    replaces, and is empty exactly when the body is blank. *)
Theorem load_skill_content_head
        (W : world) (p : text) (out : list diag) (skill : Skill) :
  load_skill W p = Return (out, Some skill) ->
  exists c h b,
    read_text W p = Return c
    /\ frontmatter_parts c = Some (h, b)
    /\ hd_error (content skill) = hd_error (lstrip b)
    /\ (forall x rest, content skill = x :: rest -> is_space x = false)
    /\ (content skill = [] <-> forallb is_space b = true).
Proof.
  intros H.
  destruct (load_skill_loaded _ _ H)
    as (c & h & b & items & Hc & Hp & Hy & Hn & Hd).
  exists c, h, b. split; [exact Hc|]. split; [exact Hp|].
  rewrite (load_skill_mapping _ _ Hc Hp Hy Hn Hd) in H.
  injection H as _ <-. cbn [content].
  assert (Hhead : hd_error (process_skill_paths W (path_parent W p) (strip b))
                  = hd_error (lstrip b))
    by (rewrite process_skill_paths_head; apply strip_head).
  remember (process_skill_paths W (path_parent W p) (strip b)) as t eqn:Ht.
  clear Ht. split; [exact Hhead|]. split.
  - intros x rest ->. cbn [hd_error] in Hhead.
    destruct (lstrip b) as [|y l] eqn:Hl; [discriminate|].
    injection Hhead as ->. exact (@lstrip_head b y l Hl).
  - rewrite <- lstrip_blank.
    destruct t; destruct (lstrip b); cbn [hd_error] in Hhead;
      split; congruence.
Qed.

Lemma load_skill_content_head_witness :
  exists c h b,
    read_text sample_world (txt "skills/a/SKILL.md") = Return c
    /\ frontmatter_parts c = Some (h, b)
    /\ hd_error (lstrip b) = Some 82%N.
Proof.
  assert (H : load_skill sample_world (txt "skills/a/SKILL.md")
              = Return ([], Some (skill_of "alpha" "Does A"
                                    "Run python skills/a/scripts/run.py"
                                    "skills/a/SKILL.md")))
    by (vm_compute; reflexivity).
  destruct (load_skill_content_head _ _ H) as (c & h & b & Hc & Hp & Hh & _).
  exists c, h, b. split; [exact Hc|]. split; [exact Hp|].
  rewrite <- Hh. vm_compute. reflexivity.
Defined.

(** * Further properties of the tools *)

Lemma dict_find_present (d : dict) (k : text) (indexed : list text) :
  map fst d = map YStr indexed -> In k indexed ->
  exists skill, dict_find (YStr k) d = Some skill.
Proof.
  revert indexed. induction d as [|[k1 v1] d IH]; intros [|s indexed] Hk Hin;
    simpl in *; try discriminate; [destruct Hin|].
  injection Hk as -> Hk. simpl.
  destruct (text_eqb s k) eqn:He; [eauto|].
  destruct Hin as [->|Hin]; [now rewrite text_eqb_refl in He|].
  now apply (IH indexed).
Qed.

(** X12.  On a catalog indexed by strings [execute] always returns, and
    succeeds exactly for the indexed names: the result then carries the
    prompt of the skill that [get_skill] returns and no error, and
    otherwise an error and no content. *)
Theorem execute_succeeds_for_indexed
        (W : world) (self : SkillLoader) (skill_name : text)
        (indexed : list text) :
  list_skills self = map YStr indexed ->
  exists result,
    execute W self skill_name = Return result
    /\ (success result = true <-> In skill_name indexed)
    /\ (success result = true ->
        error result = None
        /\ exists skill,
            get_skill self (YStr skill_name) = Return (Some skill)
            /\ tool_content result = to_prompt W skill)
    /\ (success result = false ->
        tool_content result = [] /\ error result <> None).
Proof.
  intros Hk. unfold execute, get_skill, dict_get. simpl hashable. cbv iota.
  unfold list_skills in Hk.
  destruct (dict_find (YStr skill_name) (loaded_skills self)) as [skill|] eqn:Hf;
    cbn [bind].
  - eexists. split; [reflexivity|]. cbn [success error tool_content].
    split; [|split].
    + split; [intros _|reflexivity].
      destruct (in_dec (list_eq_dec N.eq_dec) skill_name indexed) as [Hin|Hn];
        [exact Hin|].
      rewrite (dict_find_absent _ _ _ Hk Hn) in Hf. discriminate.
    + intros _. split; [reflexivity|]. now exists skill.
    + discriminate.
  - unfold list_skills, str_join. rewrite Hk, strs_of_strings. cbn [bind].
    eexists. split; [reflexivity|]. cbn [success error tool_content].
    split; [|split].
    + split; [discriminate|]. intros Hin.
      destruct (dict_find_present _ _ _ Hk Hin) as [skill Hs]. congruence.
    + discriminate.
    + intros _. split; [reflexivity | discriminate].
Qed.

Lemma execute_succeeds_for_indexed_witness :
  exists result,
    execute duplicate_world
            {| skills_dir := txt "skills";
               loaded_skills := [(key "x", x_second); (key "y", y_other)];
               printed := [] |}
            (txt "y")
    = Return result
    /\ success result = true.
Proof.
  destruct (@execute_succeeds_for_indexed duplicate_world
              {| skills_dir := txt "skills";
                 loaded_skills := [(key "x", x_second); (key "y", y_other)];
                 printed := [] |}
              (txt "y") [txt "x"; txt "y"] eq_refl) as (r & H1 & H2 & _).
  exists r. split; [exact H1|]. apply H2. right. left. reflexivity.
Defined.

(** X13.  The function that [create_deepagent_skill_tools] returns and
    [GetSkillTool.execute] agree on every loader and every name: the
    function returns the content of a successful result, and the error of
    a failed one behind the word for error; it raises when [execute]
    raises. *)
Theorem deepagent_get_skill_agrees_with_execute
        (W : world) (loader : SkillLoader) (skill_name : text) :
  deepagent_get_skill W loader skill_name
  = (result <- execute W loader skill_name ;;
     Return (if success result then tool_content result
             else txt "错误：" ++ match error result with
                                 | Some e => e
                                 | None => []
                                 end)).
Proof.
  unfold deepagent_get_skill, execute.
  destruct (get_skill loader (YStr skill_name)) as [[skill|]|e]; cbn [bind];
    try reflexivity.
  destruct (str_join (txt ", ") (list_skills loader)) as [available|e];
    cbn [bind]; [|reflexivity].
  cbn [success error]. apply f_equal.
  replace (txt "错误：技能 '") with (txt "错误：" ++ txt "技能 '")
    by (vm_compute; reflexivity).
  rewrite <- (app_assoc (txt "错误：") (txt "技能 '")). reflexivity.
Qed.

Lemma to_prompt_holds_content W skill :
  occurs (content skill) (to_prompt W skill) = true.
Proof.
  unfold to_prompt. apply occurs_split.
  exists ([nl] ++ txt "# Skill: " ++ py_str W (name skill) ++ [nl; nl]
          ++ py_str W (description skill) ++ [nl; nl] ++ txt "---" ++ [nl; nl]),
    [nl].
  now rewrite <- !app_assoc.
Qed.

(** X14.  Over an existing root whose documents declare hashable names,
    [create_skill_tools] announces as many skills as there are documents
    that parse and returns a tool that finds every discovered skill with
    a string for a name: asked for that name it succeeds with the prompt
    of the skill declared last under it, which holds that skill's text. *)
Theorem create_skill_tools_serves_discovered (W : world) (dir : text) :
  path_exists W (path_of W dir) = true ->
  all_hashable (parsed W (rglob W (path_of W dir))) ->
  exists loader,
    create_skill_tools W dir
    = Return (loader,
              length (rglob W (path_of W dir))
              - length (filter (malformed W) (rglob W (path_of W dir))))
    /\ forall skill s,
        In skill (parsed W (rglob W (path_of W dir))) ->
        name skill = YStr s ->
        exists found,
          latest (YStr s) (parsed W (rglob W (path_of W dir))) = Some found
          /\ execute W loader s
             = Return {| success := true;
                         tool_content := to_prompt W found;
                         error := None |}
          /\ occurs (content found) (to_prompt W found) = true.
Proof.
  intros He Hh. unfold create_skill_tools.
  rewrite (discover_skills_hashable W (new_loader (path_of W dir)) He Hh).
  cbn [skills_dir new_loader loaded_skills printed].
  rewrite parsed_length. eexists. split; [reflexivity|].
  intros skill s Hin Hname.
  assert (Hk : key_eqb (name skill) (YStr s) = true)
    by (rewrite Hname; simpl; apply text_eqb_refl).
  destruct (latest_of_member _ _ _ Hin Hk) as [found Hf].
  exists found. split; [exact Hf|]. split; [|apply to_prompt_holds_content].
  unfold execute, get_skill, dict_get. simpl hashable. cbv iota.
  cbn [loaded_skills]. rewrite dict_find_index, Hf. reflexivity.
Qed.

Lemma create_skill_tools_serves_discovered_witness :
  exists loader,
    create_skill_tools duplicate_world (txt "./skills")
    = Return (loader, 3)
    /\ execute duplicate_world loader (txt "x")
       = Return {| success := true;
                   tool_content := to_prompt duplicate_world x_second;
                   error := None |}.
Proof.
  destruct (@create_skill_tools_serves_discovered duplicate_world
              (txt "./skills")) as (loader & H1 & H2).
  - vm_compute. reflexivity.
  - vm_compute. repeat constructor.
  - exists loader. split.
    + rewrite H1. apply f_equal, f_equal. vm_compute. reflexivity.
    + destruct (H2 x_first (txt "x")) as (found & Hf & Hx & _).
      * vm_compute. left. reflexivity.
      * reflexivity.
      * vm_compute in Hf. injection Hf as <-. exact Hx.
Defined.

(** * Properties of the middleware *)

(** X15.  Over an existing root whose documents declare hashable names,
    the middleware keeps the list that discovery returned, announces its
    length, and lists every skill of it in the system prompt, whether or
    not a later document of the same name has taken its place in the
    loader's index; with no skill at all the list is one sentence that
    names the directory as it was given. *)
Theorem middleware_lists_every_returned_skill (W : world) (dir : text) :
  path_exists W (path_of W dir) = true ->
  all_hashable (parsed W (rglob W (path_of W dir))) ->
  exists self,
    middleware_init W dir
    = Return (self,
              length (rglob W (path_of W dir))
              - length (filter (malformed W) (rglob W (path_of W dir))))
    /\ mw_skills_dir self = dir
    /\ mw_skills self = parsed W (rglob W (path_of W dir))
    /\ (forall skill,
          In skill (parsed W (rglob W (path_of W dir))) ->
          occurs (txt "- **" ++ py_str W (name skill) ++ txt "**: "
                  ++ py_str W (description skill))
                 (format_skills_list W self) = true)
    /\ (parsed W (rglob W (path_of W dir)) = [] ->
        format_skills_list W self
        = txt "(No skills available yet. You can create skills in "
          ++ dir ++ txt ")").
Proof.
  intros He Hh. unfold middleware_init.
  rewrite (discover_skills_hashable W (new_loader (path_of W dir)) He Hh).
  cbn [skills_dir new_loader loaded_skills printed].
  rewrite parsed_length. eexists. split; [reflexivity|].
  cbn [mw_skills_dir mw_skills]. split; [reflexivity|].
  split; [reflexivity|]. unfold format_skills_list. cbn [mw_skills mw_skills_dir].
  split.
  - intros skill Hin.
    destruct (parsed W (rglob W (path_of W dir))) as [|s l] eqn:Hp;
      [destruct Hin|].
    apply occurs_join. apply (in_map (skills_list_line W)) in Hin. exact Hin.
  - intros ->. reflexivity.
Qed.

Lemma middleware_lists_every_returned_skill_witness :
  exists self,
    middleware_init duplicate_world (txt "./skills") = Return (self, 3)
    /\ occurs (txt "- **x**: First") (format_skills_list duplicate_world self)
       = true
    /\ occurs (txt "- **x**: Second") (format_skills_list duplicate_world self)
       = true.
Proof.
  destruct (@middleware_lists_every_returned_skill duplicate_world
              (txt "./skills")) as (self & H1 & _ & _ & H4 & _).
  - vm_compute. reflexivity.
  - vm_compute. repeat constructor.
  - exists self. split; [|split].
    + rewrite H1. apply f_equal, f_equal. vm_compute. reflexivity.
    + assert (E : txt "- **x**: First"
                  = txt "- **" ++ py_str duplicate_world (name x_first)
                    ++ txt "**: "
                    ++ py_str duplicate_world (description x_first))
        by (vm_compute; reflexivity).
      rewrite E. apply H4. vm_compute. left. reflexivity.
    + assert (E : txt "- **x**: Second"
                  = txt "- **" ++ py_str duplicate_world (name x_second)
                    ++ txt "**: "
                    ++ py_str duplicate_world (description x_second))
        by (vm_compute; reflexivity).
      rewrite E. apply H4. vm_compute. right. right. left. reflexivity.
Defined.

Lemma skills_prompt_head_starts :
  exists rest, skills_prompt_head = nl :: rest.
Proof. eexists. unfold skills_prompt_head. cbn [app]. reflexivity. Qed.


(** * Properties of the shell tool *)

Lemma lstrip_suffix s : exists a, s = a ++ lstrip s.
Proof.
  induction s as [|c s [a IH]]; simpl; [now exists []|].
  destruct (is_space c); [|now exists []].
  exists (c :: a). simpl. now rewrite <- IH.
Qed.

Lemma rstrip_prefix s : exists t, s = rstrip s ++ t.
Proof.
  unfold rstrip. destruct (lstrip_suffix (rev s)) as [a Ha].
  exists (rev a). rewrite <- rev_app_distr, <- Ha. now rewrite rev_involutive.
Qed.

Lemma lstrip_app_blank blank s :
  forallb is_space blank = true -> lstrip (blank ++ s) = lstrip s.
Proof.
  induction blank as [|c blank IH]; simpl; [reflexivity|].
  intros H. apply andb_true_iff in H. destruct H as [-> H]. now apply IH.
Qed.

(** A word without white space, at the start of a text, is still there
    when the text has been stripped. *)
Lemma starts_with_strip word blank rest :
  word <> [] -> existsb is_space word = false ->
  forallb is_space blank = true ->
  starts_with word (strip (blank ++ word ++ rest)) = true.
Proof.
  intros Hne Hw Hb. unfold strip. rewrite (@lstrip_app_blank blank _ Hb).
  destruct (exists_last Hne) as (w & c & ->).
  assert (Hc : is_space c = false).
  { rewrite existsb_app in Hw. apply orb_false_iff in Hw.
    destruct Hw as [_ Hw]. simpl in Hw. now rewrite orb_false_r in Hw. }
  assert (Hl : lstrip ((w ++ [c]) ++ rest) = (w ++ [c]) ++ rest).
  { destruct w as [|a w]; simpl.
    - now rewrite Hc.
    - simpl in Hw. apply orb_false_iff in Hw. destruct Hw as [-> _].
      reflexivity. }
  rewrite Hl, <- app_assoc. simpl.
  destruct (@rstrip_keeps w c rest Hc) as [t' Ht]. rewrite Ht.
  apply starts_with_split. exists t'. now rewrite <- app_assoc.
Qed.

Lemma allowed_prefixes_words :
  forall prefix, In prefix allowed_prefixes ->
                 prefix <> [] /\ existsb is_space prefix = false.
Proof.
  intros prefix Hin. apply Forall_forall with (x := prefix) (2 := Hin).
  vm_compute. repeat constructor; discriminate.
Qed.

(** X17.  A command that begins, after any leading white space, with one
    of the six allowed words is handed to the shell exactly as it was
    given, white space included, whatever follows the word: the word need
    not end there, and further commands may follow it.  The answer is
    then the first 1000 characters of the standard output when the exit
    code is 0, the standard error behind [Error: ] otherwise, and the
    text of the exception behind [Execution failed: ] when the shell
    could not be run. *)
Theorem run_bash_command_admits_by_prefix
        (subprocess_run : text -> CompletedProcess + text)
        (blank prefix rest : text) :
  forallb is_space blank = true ->
  In prefix allowed_prefixes ->
  run_bash_command subprocess_run (blank ++ prefix ++ rest)
  = match subprocess_run (blank ++ prefix ++ rest) with
    | inl result =>
        if (returncode result =? 0)%Z then firstn 1000 (stdout result)
        else txt "Error: " ++ stderr result
    | inr e => txt "Execution failed: " ++ e
    end
  /\ forall result,
      subprocess_run (blank ++ prefix ++ rest) = inl result ->
      returncode result = 0%Z ->
      length (run_bash_command subprocess_run (blank ++ prefix ++ rest))
      <= 1000
      /\ starts_with (run_bash_command subprocess_run (blank ++ prefix ++ rest))
                     (stdout result) = true.
Proof.
  intros Hb Hin.
  assert (Hrun : run_bash_command subprocess_run (blank ++ prefix ++ rest)
                 = match subprocess_run (blank ++ prefix ++ rest) with
                   | inl result =>
                       if (returncode result =? 0)%Z
                       then firstn 1000 (stdout result)
                       else txt "Error: " ++ stderr result
                   | inr e => txt "Execution failed: " ++ e
                   end).
  { unfold run_bash_command.
    destruct (@allowed_prefixes_words prefix Hin) as [Hne Hw].
    assert (He : existsb (fun prefix0 =>
                            starts_with prefix0
                                        (strip (blank ++ prefix ++ rest)))
                         allowed_prefixes = true).
    { apply existsb_exists. exists prefix. split; [exact Hin|].
      now apply starts_with_strip. }
    rewrite He. simpl negb. cbv iota. reflexivity. }
  split; [exact Hrun|]. intros result Hr H0. rewrite Hrun, Hr, H0.
  change (0 =? 0)%Z with true. cbv iota. split.
  - apply firstn_le_length.
  - apply starts_with_split. exists (skipn 1000 (stdout result)).
    symmetry. apply firstn_skipn.
Qed.

Lemma run_bash_command_admits_by_prefix_witness :
  run_bash_command (fun _ => inl (mkProcess 0 (txt "done") []))
                   (txt " " ++ txt "ls" ++ txt "x; rm -rf /")
  = txt "done".
Proof.
  destruct (@run_bash_command_admits_by_prefix
              (fun _ => inl (mkProcess 0 (txt "done") []))
              (txt " ") (txt "ls") (txt "x; rm -rf /")) as [H _].
  - vm_compute. reflexivity.
  - vm_compute. left. reflexivity.
  - rewrite H. vm_compute. reflexivity.
Defined.

(** X18.  A command that, after its leading white space, begins with none
    of the allowed words is refused with a fixed message whatever the
    shell would have done with it: the shell is not consulted. *)
Theorem run_bash_command_refuses
        (subprocess_run : text -> CompletedProcess + text) (command : text) :
  (forall prefix, In prefix allowed_prefixes ->
                  starts_with prefix (lstrip command) = false) ->
  run_bash_command subprocess_run command
  = txt "Error: Command not allowed for security reasons."
  /\ run_bash_command subprocess_run command
     = run_bash_command (fun _ => inr []) command.
Proof.
  intros Hno.
  assert (He : existsb (fun prefix => starts_with prefix (strip command))
                       allowed_prefixes = false).
  { destruct (existsb _ allowed_prefixes) eqn:He; [|reflexivity].
    apply existsb_exists in He. destruct He as (prefix & Hin & Hs).
    apply starts_with_split in Hs. destruct Hs as [r Hr].
    unfold strip in Hr.
    destruct (rstrip_prefix (lstrip command)) as [t Ht].
    rewrite Hr, <- app_assoc in Ht.
    assert (Hs : starts_with prefix (lstrip command) = true)
      by (apply starts_with_split; eauto).
    rewrite (Hno _ Hin) in Hs. discriminate. }
  unfold run_bash_command. rewrite He. simpl negb. cbv iota.
  split; reflexivity.
Qed.

Lemma run_bash_command_refuses_witness :
  run_bash_command (fun _ => inl (mkProcess 0 (txt "done") []))
                   (txt "rm -rf / ; ls")
  = txt "Error: Command not allowed for security reasons.".
Proof.
  destruct (@run_bash_command_refuses
              (fun _ => inl (mkProcess 0 (txt "done") []))
              (txt "rm -rf / ; ls")) as [H _].
  - intros prefix Hin. apply Forall_forall with (x := prefix) (2 := Hin).
    vm_compute. repeat constructor.
  - exact H.
Defined.

(** * References that the rewriter resolves *)

Section Runs.
Variable R : Type.

Lemma many_ext p (k1 k2 : cont R) :
  (forall s g, k1 s g = k2 s g) -> forall s g, many p s g k1 = many p s g k2.
Proof.
  intros Hk s g. induction s as [|c s IH]; simpl; [apply Hk|].
  rewrite IH, Hk. reflexivity.
Qed.

Lemma run_ext len0 r : forall (k1 k2 : cont R),
  (forall s g, k1 s g = k2 s g) ->
  forall s g, run len0 r s g k1 = run len0 r s g k2.
Proof.
  induction r as [|p|a IHa b IHb|a IHa b IHb|a IHa|p|p|i a IHa| |];
    intros k1 k2 Hk s g; simpl.
  - apply Hk.
  - destruct s as [|c s]; [reflexivity|]. destruct (p c); [apply Hk|reflexivity].
  - apply IHa. intros s1 g1. now apply IHb.
  - now rewrite (IHa k1 k2 Hk), (IHb k1 k2 Hk).
  - now rewrite (IHa k1 k2 Hk), Hk.
  - now apply many_ext.
  - now apply few_ext.
  - apply IHa. intros s1 g1. apply Hk.
  - destruct (length s =? len0); [apply Hk|reflexivity].
  - destruct s as [|c [|c' s]]; [apply Hk| |reflexivity].
    destruct (c =? nl)%N; [apply Hk|reflexivity].
Qed.

(** A pattern without [^] matches in the same way wherever the text at
    hand lies in the subject. *)
Lemma run_bos_free r : bos_free r = true ->
  forall n m s g (k : cont R), run n r s g k = run m r s g k.
Proof.
  induction r as [|p|a IHa b IHb|a IHa b IHb|a IHa|p|p|i a IHa| |];
    simpl; intros Hb n m s g k; try reflexivity.
  - apply andb_true_iff in Hb. destruct Hb as [Ha Hb].
    rewrite (IHa Ha n m). apply run_ext. intros s1 g1. now apply IHb.
  - apply andb_true_iff in Hb. destruct Hb as [Ha Hb].
    now rewrite (IHa Ha n m), (IHb Hb n m).
  - now rewrite (IHa Hb n m).
  - now apply IHa.
  - discriminate.
Qed.

Variable len0 : nat.

Lemma many_take p a : forall s g (k : cont R) res,
  forallb p a = true ->
  match s with [] => True | c :: _ => p c = false end ->
  k s g = Some res -> many p (a ++ s) g k = Some res.
Proof.
  induction a as [|c a IH]; intros s g k res Ha Hs Hk; simpl.
  - destruct s as [|c s]; [exact Hk|]. simpl. now rewrite Hs.
  - simpl in Ha. apply andb_true_iff in Ha. destruct Ha as [-> Ha].
    now rewrite (IH s g k res Ha Hs Hk).
Qed.

Lemma run_many1_take p a s g (k : cont R) res :
  a <> [] -> forallb p a = true ->
  match s with [] => True | c :: _ => p c = false end ->
  k s g = Some res -> run len0 (many1 p) (a ++ s) g k = Some res.
Proof.
  intros Hne Ha Hs Hk. destruct a as [|c a]; [congruence|].
  simpl in Ha. apply andb_true_iff in Ha. destruct Ha as [Hc Ha].
  unfold many1. cbn [run app]. rewrite Hc. now apply many_take.
Qed.

Lemma starts_with_app w s : starts_with w (w ++ s) = true.
Proof. apply starts_with_split. now exists s. Qed.

Lemma skipn_length_app (w s : text) : skipn (length w) (w ++ s) = s.
Proof. induction w as [|c w IH]; [reflexivity | exact IH]. Qed.

Lemma run_lit_app w s g (k : cont R) :
  run len0 (lit false w) (w ++ s) g k = k s g.
Proof. now rewrite run_lit, starts_with_app, skipn_length_app. Qed.

Lemma run_ilit w v : same_folded w v ->
  forall s g (k : cont R), run len0 (lit true w) (v ++ s) g k = k s g.
Proof.
  induction 1 as [|a c w v Hc _ IH]; intros s g k; [reflexivity|].
  cbn [lit fold_right run app]. rewrite Hc. apply IH.
Qed.

Lemma run_ilit_mismatch w1 a w2 : forall v1 c s g (k : cont R),
  length w1 = length v1 -> ci a c = false ->
  run len0 (lit true (w1 ++ a :: w2)) (v1 ++ c :: s) g k = None.
Proof.
  induction w1 as [|b w1 IH]; intros [|d v1] c s g k Hl Hc;
    try discriminate; cbn [lit fold_right run app].
  - now rewrite Hc.
  - destruct (ci b d); [|reflexivity]. apply IH; [|exact Hc].
    now injection Hl.
Qed.

Lemma run_alts_pick pre a post s g (k : cont R) res :
  Forall (fun b => run len0 b s g k = None) pre ->
  run len0 a s g k = Some res ->
  run len0 (alts (pre ++ a :: post)) s g k = Some res.
Proof.
  intros Hpre Ha. induction Hpre as [|b pre Hb _ IH].
  - destruct post as [|b post]; [exact Ha|].
    cbn [app alts run]. now rewrite Ha.
  - cbn [app]. destruct (pre ++ a :: post) as [|x l] eqn:E.
    + now destruct pre.
    + cbn [alts run]. rewrite Hb. exact IH.
Qed.
End Runs.

Section Leading.
Variable r : regex.
Variable repl : rmatch -> text.
Hypothesis r_bos_free : bos_free r = true.

Lemma match_at_bos_free n m s : match_at n r s = match_at m r s.
Proof. unfold match_at. now apply run_bos_free. Qed.

Lemma sub_from_bos_free n m s : forall skip,
  sub_from n r repl skip s = sub_from m r repl skip s.
Proof.
  induction s as [|c s IH]; intros [|skip]; simpl; try reflexivity.
  - now rewrite (match_at_bos_free n m).
  - rewrite (match_at_bos_free n m), !(IH 0).
    destruct (match_at m r (c :: s)) as [x|]; [|reflexivity].
    destruct (length (whole x)); [reflexivity|]. now rewrite IH.
  - apply IH.
Qed.

Lemma sub_from_skip len0 a rest :
  sub_from len0 r repl (length a) (a ++ rest) = sub_from len0 r repl 0 rest.
Proof.
  induction a as [|c a IH]; [reflexivity | exact IH].
Qed.

(** A match at the start of the text is replaced, and the text behind it
    is rewritten as if it stood alone. *)
Lemma re_sub_leading len0 w rest m :
  w <> [] -> match_at len0 r (w ++ rest) = Some m -> whole m = w ->
  re_sub r repl (w ++ rest) = repl m ++ re_sub r repl rest.
Proof.
  intros Hne Hm Hw. unfold re_sub.
  rewrite (sub_from_bos_free (length (w ++ rest)) len0).
  rewrite (sub_from_bos_free (length rest) len0).
  destruct w as [|c w]; [congruence|]. cbn [app sub_from].
  change (c :: w ++ rest) with ((c :: w) ++ rest). rewrite Hm, Hw.
  cbn [length]. now rewrite sub_from_skip.
Qed.
End Leading.

Lemma ascii_lower_low x : (97 <= x)%N -> ascii_lower x = x.
Proof.
  intros Hx. unfold ascii_lower. destruct (N.leb_spec x 90); [lia|].
  now rewrite andb_false_r.
Qed.

Lemma ci_distinct p q c :
  (97 <= p <= 122)%N -> (97 <= q <= 122)%N -> p <> q ->
  ci p c = true -> ci q c = false.
Proof.
  intros Hp Hq Hpq. unfold ci.
  rewrite (@ascii_lower_low p), (@ascii_lower_low q) by lia.
  assert (H1 : c = 305%N -> sre_lower c = 305%N) by (intros ->; reflexivity).
  assert (H2 : c = 383%N -> sre_lower c = 383%N) by (intros ->; reflexivity).
  revert H1 H2. generalize (sre_lower c). intros l H1 H2 H.
  rewrite !orb_true_iff, !andb_true_iff, !N.eqb_eq in H.
  rewrite !orb_false_iff, !andb_false_iff, !N.eqb_neq. lia.
Qed.

Lemma is_space_cases c :
  is_space c = true ->
  In c [9; 10; 11; 12; 13; 28; 29; 30; 31; 32; 133; 160; 5760; 8192; 8193;
        8194; 8195; 8196; 8197; 8198; 8199; 8200; 8201; 8202; 8232; 8233;
        8239; 8287; 12288]%N.
Proof.
  unfold is_space. intros H.
  repeat match type of H with
         | (_ || _ = true) => apply orb_true_iff in H; destruct H as [H|H]
         end;
  repeat match goal with
         | H : (_ && _ = true) |- _ =>
             apply andb_true_iff in H; destruct H
         | H : ((_ <=? _)%N = true) |- _ => apply N.leb_le in H
         | H : ((_ =? _)%N = true) |- _ => apply N.eqb_eq in H
         end; simpl; lia.
Qed.

Lemma set_filename_not_space c : set_filename c = true -> is_space c = false.
Proof.
  intros Hc. destruct (is_space c) eqn:Hs; [|reflexivity].
  apply is_space_cases in Hs. revert Hc.
  apply Forall_forall with (x := c) (2 := Hs).
  vm_compute. repeat constructor; discriminate.
Qed.

Lemma taken_app2 (a b s : text) : taken (a ++ b ++ s) s = a ++ b.
Proof. rewrite app_assoc. apply taken_app. Qed.

Lemma taken_app3 (a b c s : text) : taken (a ++ b ++ c ++ s) s = a ++ b ++ c.
Proof.
  replace (a ++ b ++ c ++ s) with ((a ++ b ++ c) ++ s)
    by now rewrite <- !app_assoc.
  apply taken_app.
Qed.

Lemma taken_app4 (a b c d s : text) :
  taken (a ++ b ++ c ++ d ++ s) s = a ++ b ++ c ++ d.
Proof.
  replace (a ++ b ++ c ++ d ++ s) with ((a ++ b ++ c ++ d) ++ s)
    by now rewrite <- !app_assoc.
  apply taken_app.
Qed.

Lemma taken_app6 (a b c d e f s : text) :
  taken (a ++ b ++ c ++ d ++ e ++ f ++ s) s = a ++ b ++ c ++ d ++ e ++ f.
Proof.
  replace (a ++ b ++ c ++ d ++ e ++ f ++ s)
    with ((a ++ b ++ c ++ d ++ e ++ f) ++ s)
    by now rewrite <- !app_assoc.
  apply taken_app.
Qed.

Section DirectoryReference.
Variable R : Type.
Variable len0 : nat.

Lemma run_dir_word d s g (k : cont R) :
  In d (map txt ["scripts"; "examples"; "templates"; "reference"]%string) ->
  run len0 (alts [str "scripts"; str "examples"; str "templates";
                  str "reference"]) (d ++ s) g k
  = k s g.
Proof.
  intros Hin. cbn [alts run]. unfold str. rewrite !run_lit.
  cbn [map In] in Hin.
  destruct Hin as [<-|[<-|[<-|[<-|[]]]]]; vm_compute;
    destruct (k s g); reflexivity.
Qed.

Lemma run_dir_lead lead s g (k : cont R) res :
  lead = txt "`"
  \/ (exists ws, ws <> [] /\ forallb is_space ws = true
                 /\ lead = txt "python" ++ ws) ->
  match s with [] => True | c :: _ => is_space c = false end ->
  k s g = Some res ->
  run len0 (Alt (Cat (str "python") (many1 is_space)) (str "`"))
      (lead ++ s) g k
  = Some res.
Proof.
  intros [->|(ws & Hne & Hws & ->)] Hs Hk; cbn [run]; unfold str.
  - rewrite run_lit.
    assert (E : starts_with (txt "python") (txt "`" ++ s) = false)
      by (vm_compute; reflexivity).
    rewrite E, run_lit_app. exact Hk.
  - rewrite <- app_assoc, run_lit_app.
    now rewrite (@run_many1_take R len0 is_space ws s g k res Hne Hws Hs Hk).
Qed.
End DirectoryReference.

Lemma match_at_pattern_dirs len0 lead d p rest :
  lead = txt "`"
  \/ (exists ws, ws <> [] /\ forallb is_space ws = true
                 /\ lead = txt "python" ++ ws) ->
  In d (map txt ["scripts"; "examples"; "templates"; "reference"]%string) ->
  p <> [] -> forallb set_dirs p = true ->
  match rest with [] => True | c :: _ => set_dirs c = false end ->
  match_at len0 pattern_dirs (lead ++ d ++ txt "/" ++ p ++ rest)
  = Some {| whole := lead ++ d ++ txt "/" ++ p;
            caps := [(2, d ++ txt "/" ++ p); (1, lead)] |}.
Proof.
  intros Hlead Hd Hne Hp Hrest. unfold match_at, pattern_dirs. cbn [run].
  apply run_dir_lead; [exact Hlead | |].
  - cbn [map In] in Hd.
    destruct Hd as [<-|[<-|[<-|[<-|[]]]]]; vm_compute; reflexivity.
  - rewrite (@run_dir_word _ len0 d _ _ _ Hd). unfold str. rewrite run_lit_app.
    apply run_many1_take; [exact Hne | exact Hp | exact Hrest |].
    now rewrite taken_app, taken_app3, taken_app4.
Qed.

Ltac folded_inv H :=
  repeat match type of H with
         | same_folded (_ :: _) _ =>
             let c := fresh "c" in
             let v := fresh "v" in
             let Hc := fresh "Hc" in
             let H' := fresh "Hv" in
             inversion H as [|? c ? v Hc H']; subst; clear H; rename H' into H
         | Forall2 _ (_ :: _) _ =>
             let c := fresh "c" in
             let v := fresh "v" in
             let Hc := fresh "Hc" in
             let H' := fresh "Hv" in
             inversion H as [|? c ? v Hc H']; subst; clear H; rename H' into H
         | same_folded [] _ => inversion H; subst; clear H
         | Forall2 _ [] _ => inversion H; subst; clear H
         end.

Ltac other_letter H :=
  eapply ci_distinct; [| | | exact H]; lia.

Section DocumentMention.
Variable R : Type.
Variable len0 : nat.

Lemma run_doc_verb verb v s g (k : cont R) res :
  In verb (map txt ["see"; "read"; "refer to"; "check"]%string) ->
  same_folded verb v ->
  k s g = Some res ->
  run len0 (alts [istr "see"; istr "read"; istr "refer to"; istr "check"])
      (v ++ s) g k
  = Some res.
Proof.
  intros Hin Hv Hk.
  assert (Hrun : run len0 (lit true verb) (v ++ s) g k = Some res)
    by now rewrite (@run_ilit R len0 verb v Hv).
  replace [istr "see"; istr "read"; istr "refer to"; istr "check"]
    with [lit true [115; 101; 101]%N; lit true [114; 101; 97; 100]%N;
          lit true [114; 101; 102; 101; 114; 32; 116; 111]%N;
          lit true [99; 104; 101; 99; 107]%N]
    by (vm_compute; reflexivity).
  vm_compute in Hin.
  destruct Hin as [<-|[<-|[<-|[<-|[]]]]]; folded_inv Hv.
  - apply (@run_alts_pick R len0 ([]) _ _ _ _ _ _); [constructor | exact Hrun].
  - apply (@run_alts_pick R len0 ([lit true [115; 101; 101]%N]) _ _ _ _ _ _);
      [repeat constructor | exact Hrun].
    apply (@run_ilit_mismatch R len0 [] 115%N [101; 101]%N [] c);
      [reflexivity | other_letter Hc].
  - apply (@run_alts_pick R len0 ([lit true [115; 101; 101]%N;
                                  lit true [114; 101; 97; 100]%N]) _ _ _ _ _ _);
      [repeat constructor | exact Hrun].
    + apply (@run_ilit_mismatch R len0 [] 115%N [101; 101]%N [] c);
        [reflexivity | other_letter Hc].
    + apply (@run_ilit_mismatch R len0 [114; 101]%N 97%N [100]%N [c; c0] c1);
        [reflexivity | other_letter Hc1].
  - apply (@run_alts_pick R len0 ([lit true [115; 101; 101]%N;
                      lit true [114; 101; 97; 100]%N;
                      lit true [114; 101; 102; 101; 114; 32; 116; 111]%N]) _ _ _ _ _ _);
      [repeat constructor | exact Hrun].
    + apply (@run_ilit_mismatch R len0 [] 115%N [101; 101]%N [] c);
        [reflexivity | other_letter Hc].
    + apply (@run_ilit_mismatch R len0 [] 114%N [101; 97; 100]%N [] c);
        [reflexivity | other_letter Hc].
    + apply (@run_ilit_mismatch R len0 [] 114%N
               [101; 102; 101; 114; 32; 116; 111]%N [] c);
        [reflexivity | other_letter Hc].
Qed.

Lemma run_doc_ext ext e s g (k : cont R) res :
  In ext (map txt ["md"; "txt"; "json"; "yaml"]%string) ->
  same_folded ext e ->
  k s g = Some res ->
  run len0 (alts [istr "md"; istr "txt"; istr "json"; istr "yaml"])
      (e ++ s) g k
  = Some res.
Proof.
  intros Hin He Hk.
  assert (Hrun : run len0 (lit true ext) (e ++ s) g k = Some res)
    by now rewrite (@run_ilit R len0 ext e He).
  replace [istr "md"; istr "txt"; istr "json"; istr "yaml"]
    with [lit true [109; 100]%N; lit true [116; 120; 116]%N;
          lit true [106; 115; 111; 110]%N; lit true [121; 97; 109; 108]%N]
    by (vm_compute; reflexivity).
  vm_compute in Hin.
  destruct Hin as [<-|[<-|[<-|[<-|[]]]]]; folded_inv He.
  - apply (@run_alts_pick R len0 ([]) _ _ _ _ _ _); [constructor | exact Hrun].
  - apply (@run_alts_pick R len0 ([lit true [109; 100]%N]) _ _ _ _ _ _);
      [repeat constructor | exact Hrun].
    apply (@run_ilit_mismatch R len0 [] 109%N [100]%N [] c);
      [reflexivity | other_letter Hc].
  - apply (@run_alts_pick R len0 ([lit true [109; 100]%N;
                                  lit true [116; 120; 116]%N]) _ _ _ _ _ _);
      [repeat constructor | exact Hrun].
    + apply (@run_ilit_mismatch R len0 [] 109%N [100]%N [] c);
        [reflexivity | other_letter Hc].
    + apply (@run_ilit_mismatch R len0 [] 116%N [120; 116]%N [] c);
        [reflexivity | other_letter Hc].
  - apply (@run_alts_pick R len0 ([lit true [109; 100]%N;
                                  lit true [116; 120; 116]%N;
                                  lit true [106; 115; 111; 110]%N]) _ _ _ _ _ _);
      [repeat constructor | exact Hrun].
    + apply (@run_ilit_mismatch R len0 [] 109%N [100]%N [] c);
        [reflexivity | other_letter Hc].
    + apply (@run_ilit_mismatch R len0 [] 116%N [120; 116]%N [] c);
        [reflexivity | other_letter Hc].
    + apply (@run_ilit_mismatch R len0 [] 106%N [115; 111; 110]%N [] c);
        [reflexivity | other_letter Hc].
Qed.
End DocumentMention.

Lemma match_at_pattern_docs len0 verb v ws stem ext e suffix rest :
  In verb (map txt ["see"; "read"; "refer to"; "check"]%string) ->
  same_folded verb v ->
  ws <> [] -> forallb is_space ws = true ->
  stem <> [] -> forallb set_filename stem = true ->
  In ext (map txt ["md"; "txt"; "json"; "yaml"]%string) ->
  same_folded ext e ->
  set_suffix suffix = true ->
  match_at len0 pattern_docs
           (v ++ ws ++ stem ++ txt "." ++ e ++ [suffix] ++ rest)
  = Some {| whole := v ++ ws ++ stem ++ txt "." ++ e ++ [suffix];
            caps := [(3, [suffix]); (2, stem ++ txt "." ++ e); (1, v)] |}.
Proof.
  intros Hverb Hv Hwne Hws Hsne Hstem Hext He Hsuf.
  unfold match_at, pattern_docs. cbn [run].
  apply (@run_doc_verb _ len0 verb v _ _ _ _ Hverb Hv). cbv beta.
  apply run_many1_take; [exact Hwne | exact Hws | |].
  - destruct stem as [|c stem]; [congruence|]. cbn [app].
    apply set_filename_not_space. simpl in Hstem.
    now apply andb_true_iff in Hstem.
  - apply run_many1_take; [exact Hsne | exact Hstem | |].
    + vm_compute. reflexivity.
    + unfold str. rewrite run_lit_app.
      apply (@run_doc_ext _ len0 ext e _ _ _ _ Hext He). cbn [app]. rewrite Hsuf.
      rewrite taken_app.
      change (suffix :: rest) with ([suffix] ++ rest).
      now rewrite taken_app, taken_app3, taken_app6.
Qed.

Lemma pattern_dirs_bos_free : bos_free pattern_dirs = true.
Proof. vm_compute. reflexivity. Qed.

Lemma pattern_docs_bos_free : bos_free pattern_docs = true.
Proof. vm_compute. reflexivity. Qed.





Lemma ci_other p q c :
  (65 <= p <= 90 \/ 97 <= p <= 122)%N ->
  (65 <= q <= 90 \/ 97 <= q <= 122)%N ->
  ascii_lower p <> ascii_lower q ->
  ci p c = true -> ci q c = false.
Proof.
  intros Hp Hq Hpq Hc.
  assert (Hlow : forall x, (65 <= x <= 90 \/ 97 <= x <= 122)%N ->
                           (97 <= ascii_lower x <= 122)%N).
  { intros x Hx. unfold ascii_lower.
    destruct (N.leb_spec 65 x), (N.leb_spec x 90); cbn [andb]; lia. }
  assert (Hci : forall x, (65 <= x <= 90 \/ 97 <= x <= 122)%N ->
                          ci x c = ci (ascii_lower x) c).
  { intros x Hx. unfold ci.
    replace (ascii_lower (ascii_lower x)) with (ascii_lower x);
      [reflexivity|].
    unfold ascii_lower.
    destruct (N.leb_spec 65 x), (N.leb_spec x 90); cbn [andb];
      repeat match goal with
             | |- context [(?a <=? ?b)%N] =>
                 destruct (N.leb_spec a b); cbn [andb]
             end; lia. }
  rewrite (Hci p Hp) in Hc. rewrite (Hci q Hq).
  exact (@ci_distinct _ _ c (Hlow p Hp) (Hlow q Hq) Hpq Hc).
Qed.

(** A character that an ASCII letter of a pattern matches under
    IGNORECASE is a letter itself. *)
Lemma ci_letter p c :
  (65 <= p <= 90 \/ 97 <= p <= 122)%N -> ci p c = true -> (65 <= c)%N.
Proof.
  intros Hp. unfold ci.
  assert (Hlow : (97 <= ascii_lower p <= 122)%N).
  { unfold ascii_lower.
    destruct (N.leb_spec 65 p), (N.leb_spec p 90); cbn [andb]; lia. }
  revert Hlow. generalize (ascii_lower p). intros lp Hlow.
  unfold sre_lower, ascii_lower.
  destruct (N.eqb_spec c 304), (N.eqb_spec c 8490); try lia.
  destruct (N.leb_spec 65 c); [lia|]. cbn [andb].
  rewrite !orb_true_iff, !andb_true_iff, !N.eqb_eq. lia.
Qed.

Ltac ci_false :=
  first
    [ solve [vm_compute; reflexivity]
    | match goal with
      | H : ci _ ?c = true |- ci _ ?c = false =>
          solve [eapply ci_other; [| | | exact H];
                 [lia | lia | vm_compute; discriminate]]
      end ].

Ltac mismatch_at :=
  first
    [ apply (@run_ilit_mismatch _ _ [] _ _ []); [reflexivity | ci_false]
    | apply (@run_ilit_mismatch _ _ [_] _ _ [_]); [reflexivity | ci_false]
    | apply (@run_ilit_mismatch _ _ [_; _] _ _ [_; _]);
      [reflexivity | ci_false]
    | apply (@run_ilit_mismatch _ _ [_; _; _] _ _ [_; _; _]);
      [reflexivity | ci_false] ].

Ltac mismatches :=
  repeat (apply Forall_cons; [mismatch_at|]); apply Forall_nil.

Ltac pick_alt Hrun :=
  first
    [ apply (@run_alts_pick _ _ [] _ _ _ _ _ _); [mismatches | exact Hrun]
    | apply (@run_alts_pick _ _ [_] _ _ _ _ _ _); [mismatches | exact Hrun]
    | apply (@run_alts_pick _ _ [_; _] _ _ _ _ _ _);
      [mismatches | exact Hrun]
    | apply (@run_alts_pick _ _ [_; _; _] _ _ _ _ _ _);
      [mismatches | exact Hrun]
    | apply (@run_alts_pick _ _ [_; _; _; _] _ _ _ _ _ _);
      [mismatches | exact Hrun]
    | apply (@run_alts_pick _ _ [_; _; _; _; _] _ _ _ _ _ _);
      [mismatches | exact Hrun]
    | apply (@run_alts_pick _ _ [_; _; _; _; _; _] _ _ _ _ _ _);
      [mismatches | exact Hrun] ].

Section Runs_back.
Variable R : Type.
Variable len0 : nat.

Lemma run_alts_none l s g (k : cont R) :
  Forall (fun b => run len0 b s g k = None) l ->
  run len0 (alts l) s g k = None.
Proof.
  induction 1 as [|b l Hb Hl IH]; [now destruct s|].
  destruct l as [|x l]; [exact Hb|]. cbn [alts run]. now rewrite Hb.
Qed.

Lemma many_none p b : forall s g (k : cont R),
  (forall b1 b2, b = b1 ++ b2 -> k (b2 ++ s) g = None) ->
  match s with [] => True | c :: _ => p c = false end ->
  many p (b ++ s) g k = None.
Proof.
  induction b as [|c b IH]; intros s g k Hk Hs.
  - cbn [app]. specialize (Hk [] [] eq_refl). cbn [app] in Hk.
    destruct s as [|c s]; [exact Hk|]. simpl. now rewrite Hs.
  - cbn [app many].
    rewrite (IH s g k); [|intros b1 b2 ->; now apply (Hk (c :: b1) b2)|exact Hs].
    pose proof (Hk [] (c :: b) eq_refl) as H0. cbn [app] in H0.
    rewrite H0. now destruct (p c).
Qed.

(** A greedy repetition gives back what the rest of the pattern needs:
    here the part [b], when the rest of the pattern matches at no later
    place. *)
Lemma many_backtrack p a b : forall s g (k : cont R) res,
  forallb p a = true ->
  match s with [] => True | c :: _ => p c = false end ->
  k (b ++ s) g = Some res ->
  (forall b1 b2, b = b1 ++ b2 -> b1 <> [] -> k (b2 ++ s) g = None) ->
  many p (a ++ b ++ s) g k = Some res.
Proof.
  induction a as [|c a IH]; intros s g k res Ha Hs Hk Hno.
  - cbn [app]. destruct b as [|c b].
    + cbn [app] in *. destruct s as [|c s]; [exact Hk|]. simpl.
      now rewrite Hs.
    + cbn [app many].
      rewrite (@many_none p b s g k); [now destruct (p c)| |exact Hs].
      intros b1 b2 ->. apply (Hno (c :: b1) b2); [reflexivity|discriminate].
  - simpl in Ha. apply andb_true_iff in Ha. destruct Ha as [Hc Ha].
    cbn [app many]. rewrite Hc. now rewrite (IH s g k res Ha Hs Hk Hno).
Qed.

Lemma run_lit_other a w c s g (k : cont R) :
  a <> c -> run len0 (lit false (a :: w)) (c :: s) g k = None.
Proof.
  intros Hac. cbn [lit fold_right run]. unfold chr.
  destruct (N.eqb_spec a c); [congruence | reflexivity].
Qed.
End Runs_back.

Lemma taken_app_r (a x s : text) :
  length s <= length x -> taken (a ++ x) s = a ++ taken x s.
Proof.
  intros Hl. unfold taken. rewrite length_app.
  replace (length a + length x - length s)
    with (length a + (length x - length s)) by lia.
  now rewrite firstn_app_2.
Qed.

Ltac taken_simpl :=
  repeat first [ rewrite taken_app
               | rewrite taken_app_r by (rewrite ?length_app; lia) ].

Section MarkdownLink.
Variable R : Type.
Variable len0 : nat.

Lemma run_cat a b s g (k : cont R) :
  run len0 (Cat a b) s g k
  = run len0 a s g (fun s1 g1 => run len0 b s1 g1 k).
Proof. reflexivity. Qed.

Lemma run_opt a s g (k : cont R) :
  run len0 (Opt a) s g k
  = match run len0 a s g k with Some r => Some r | None => k s g end.
Proof. reflexivity. Qed.

Lemma run_grp i a s g (k : cont R) :
  run len0 (Grp i a) s g k
  = run len0 a s g (fun s1 g1 => k s1 ((i, taken s s1) :: g1)).
Proof. reflexivity. Qed.

Lemma run_one p c s g (k : cont R) :
  run len0 (One p) (c :: s) g k = if p c then k s g else None.
Proof. reflexivity. Qed.

Lemma run_many p s g (k : cont R) :
  run len0 (Many p) s g k = many p s g k.
Proof. reflexivity. Qed.

Lemma run_str_app w s g (k : cont R) :
  run len0 (str w) (txt w ++ s) g k = k s g.
Proof. apply run_lit_app. Qed.

Lemma option_first (x y : option R) res :
  x = Some res ->
  match x with Some r => Some r | None => y end = Some res.
Proof. now intros ->. Qed.

Lemma option_second (x y : option R) res :
  x = None -> y = Some res ->
  match x with Some r => Some r | None => y end = Some res.
Proof. now intros -> ->. Qed.

Lemma run_link_verb verb v s g (k : cont R) res :
  In verb (map txt ["Read"; "See"; "Check"; "Refer to"; "Load";
                    "View"]%string) ->
  same_folded verb v ->
  k s g = Some res ->
  run len0 (alts [istr "Read"; istr "See"; istr "Check"; istr "Refer to";
                  istr "Load"; istr "View"]) (v ++ s) g k
  = Some res.
Proof.
  intros Hin Hv Hk.
  assert (Hrun : run len0 (lit true verb) (v ++ s) g k = Some res)
    by now rewrite (@run_ilit R len0 verb v Hv).
  replace [istr "Read"; istr "See"; istr "Check"; istr "Refer to";
           istr "Load"; istr "View"]
    with [lit true [82; 101; 97; 100]%N; lit true [83; 101; 101]%N;
          lit true [67; 104; 101; 99; 107]%N;
          lit true [82; 101; 102; 101; 114; 32; 116; 111]%N;
          lit true [76; 111; 97; 100]%N; lit true [86; 105; 101; 119]%N]
    by (vm_compute; reflexivity).
  vm_compute in Hin.
  destruct Hin as [<-|[<-|[<-|[<-|[<-|[<-|[]]]]]]]; folded_inv Hv;
    pick_alt Hrun.
Qed.

Lemma run_link_verb_none s g (k : cont R) :
  run len0 (alts [istr "Read"; istr "See"; istr "Check"; istr "Refer to";
                  istr "Load"; istr "View"]) (txt "[" ++ s) g k
  = None.
Proof.
  replace [istr "Read"; istr "See"; istr "Check"; istr "Refer to";
           istr "Load"; istr "View"]
    with [lit true [82; 101; 97; 100]%N; lit true [83; 101; 101]%N;
          lit true [67; 104; 101; 99; 107]%N;
          lit true [82; 101; 102; 101; 114; 32; 116; 111]%N;
          lit true [76; 111; 97; 100]%N; lit true [86; 105; 101; 119]%N]
    by (vm_compute; reflexivity).
  change (txt "[" ++ s) with (91%N :: s).
  apply run_alts_none. mismatches.
Qed.

Lemma run_link_ext ext e rest g (k : cont R) res :
  In ext (map txt ["md"; "txt"; "json"; "yaml"; "js"; "py";
                   "html"]%string) ->
  same_folded ext e ->
  k (txt ")" ++ rest) g = Some res ->
  run len0 (alts [istr "md"; istr "txt"; istr "json"; istr "yaml";
                  istr "js"; istr "py"; istr "html"])
      (e ++ txt ")" ++ rest) g k
  = Some res.
Proof.
  intros Hin He Hk.
  assert (Hrun : run len0 (lit true ext) (e ++ txt ")" ++ rest) g k
                 = Some res)
    by now rewrite (@run_ilit R len0 ext e He).
  replace [istr "md"; istr "txt"; istr "json"; istr "yaml"; istr "js";
           istr "py"; istr "html"]
    with [lit true [109; 100]%N; lit true [116; 120; 116]%N;
          lit true [106; 115; 111; 110]%N; lit true [121; 97; 109; 108]%N;
          lit true [106; 115]%N; lit true [112; 121]%N;
          lit true [104; 116; 109; 108]%N]
    by (vm_compute; reflexivity).
  change (txt ")" ++ rest) with (41%N :: rest) in *.
  vm_compute in Hin.
  destruct Hin as [<-|[<-|[<-|[<-|[<-|[<-|[<-|[]]]]]]]]; folded_inv He;
    pick_alt Hrun.
Qed.

Lemma link_ext_letters ext e :
  In ext (map txt ["md"; "txt"; "json"; "yaml"; "js"; "py";
                   "html"]%string) ->
  same_folded ext e -> Forall (fun c => (65 <= c)%N) e.
Proof.
  intros Hin He. vm_compute in Hin.
  destruct Hin as [<-|[<-|[<-|[<-|[<-|[<-|[<-|[]]]]]]]]; folded_inv He;
    repeat constructor;
    match goal with
    | H : ci ?p ?c = true |- (65 <= ?c)%N =>
        apply (@ci_letter p c); [lia | exact H]
    end.
Qed.
End MarkdownLink.

Lemma str_backtick : str "`" = lit false [96%N].
Proof. vm_compute. reflexivity. Qed.

Lemma str_dot : str "." = lit false [46%N].
Proof. vm_compute. reflexivity. Qed.

Lemma str_dot_slash : str "./" = lit false [46%N; 47%N].
Proof. vm_compute. reflexivity. Qed.

Lemma starts_with_dot_slash stem s :
  stem <> [] -> starts_with (txt "./") stem = false ->
  starts_with (txt "./") (stem ++ txt "." ++ s) = false.
Proof.
  intros Hne Hs. change (txt "./") with [46%N; 47%N] in *.
  change (txt "." ++ s) with (46%N :: s).
  destruct stem as [|c [|c' stem]]; [congruence | |exact Hs].
  cbn [app starts_with]. change (47 =? 46)%N with false.
  cbn [andb]. apply andb_false_r.
Qed.

Section MarkdownLinkParts.
Variable R : Type.
Variable len0 : nat.

Lemma run_link_label q1 t q2 s g (k : cont R) res :
  q1 = [] \/ q1 = txt "`" -> q2 = [] \/ q2 = txt "`" ->
  t <> [] -> forallb set_link_text t = true ->
  k (txt "](" ++ s) g = Some res ->
  run len0 (Cat (Opt (str "`")) (Cat (many1 set_link_text) (Opt (str "`"))))
      (q1 ++ t ++ q2 ++ txt "](" ++ s) g k
  = Some res.
Proof.
  intros Hq1 Hq2 Hne Ht Hk. rewrite run_cat, run_opt.
  assert (Hrest : run len0 (Cat (many1 set_link_text) (Opt (str "`")))
                      (t ++ q2 ++ txt "](" ++ s) g k = Some res).
  { rewrite run_cat. apply run_many1_take; [exact Hne | exact Ht | |].
    - destruct Hq2 as [->| ->]; vm_compute; reflexivity.
    - rewrite run_opt. destruct Hq2 as [->| ->].
      + cbn [app]. apply option_second; [|exact Hk].
        rewrite str_backtick. change (txt "](" ++ s) with (93%N :: 40%N :: s).
        apply run_lit_other. discriminate.
      + apply option_first. now rewrite run_str_app. }
  destruct Hq1 as [->| ->].
  - cbn [app]. apply option_second; [|exact Hrest].
    destruct t as [|c t]; [congruence|]. cbn [app]. rewrite str_backtick.
    apply run_lit_other. simpl in Ht. apply andb_true_iff in Ht.
    destruct Ht as [Hc _]. intros <-. vm_compute in Hc. discriminate.
  - apply option_first. rewrite run_str_app. exact Hrest.
Qed.

Lemma run_link_path pre stem ext e rest g (k : cont R) res :
  pre = txt "./" \/ (pre = [] /\ starts_with (txt "./") stem = false) ->
  stem <> [] -> forallb set_link_path stem = true ->
  In ext (map txt ["md"; "txt"; "json"; "yaml"; "js"; "py";
                   "html"]%string) ->
  same_folded ext e ->
  k (txt ")" ++ rest) g = Some res ->
  run len0
      (Cat (Opt (str "./"))
           (Cat (many1 set_link_path)
                (Cat (str ".")
                     (alts [istr "md"; istr "txt"; istr "json"; istr "yaml";
                            istr "js"; istr "py"; istr "html"]))))
      (pre ++ stem ++ txt "." ++ e ++ txt ")" ++ rest) g k
  = Some res.
Proof.
  intros Hpre Hsne Hstem Hext He Hk. rewrite run_cat, run_opt.
  assert (Hrest : run len0
                      (Cat (many1 set_link_path)
                           (Cat (str ".")
                                (alts [istr "md"; istr "txt"; istr "json";
                                       istr "yaml"; istr "js"; istr "py";
                                       istr "html"])))
                      (stem ++ txt "." ++ e ++ txt ")" ++ rest) g k
                  = Some res).
  { rewrite run_cat. destruct stem as [|c0 stem]; [congruence|].
    simpl in Hstem. apply andb_true_iff in Hstem.
    destruct Hstem as [Hc0 Hstem].
    unfold many1. rewrite run_cat. cbn [app]. rewrite run_one, Hc0, run_many.
    rewrite (app_assoc (txt ".") e).
    apply many_backtrack; [exact Hstem | vm_compute; reflexivity | |].
    - rewrite <- app_assoc, run_cat, run_str_app.
      now apply (@run_link_ext R len0 ext e rest g k res Hext He).
    - intros b1 b2 Hb Hb1. cbv beta. rewrite run_cat, str_dot.
      pose proof (@link_ext_letters ext e Hext He) as Hletters.
      destruct b1 as [|c b1]; [congruence|].
      change (txt "." ++ e) with (46%N :: e) in Hb.
      injection Hb as _ ->. apply Forall_app in Hletters.
      destruct Hletters as [_ Hletters].
      destruct b2 as [|x b2].
      + change ([] ++ txt ")" ++ rest) with (41%N :: rest).
        apply run_lit_other. discriminate.
      + cbn [app]. apply run_lit_other. inversion Hletters; subst. lia. }
  destruct Hpre as [->|[-> Hns]].
  - apply option_first. rewrite run_str_app. exact Hrest.
  - cbn [app]. apply option_second; [|exact Hrest].
    unfold str. rewrite run_lit.
    now rewrite (starts_with_dot_slash _ Hsne Hns).
Qed.
End MarkdownLinkParts.

Lemma match_at_pattern_markdown len0 v ws q1 t q2 pre stem ext e rest :
  (v = [] /\ ws = [])
  \/ (exists verb,
        In verb (map txt ["Read"; "See"; "Check"; "Refer to"; "Load";
                          "View"]%string)
        /\ same_folded verb v /\ ws <> [] /\ forallb is_space ws = true) ->
  q1 = [] \/ q1 = txt "`" -> q2 = [] \/ q2 = txt "`" ->
  t <> [] -> forallb set_link_text t = true ->
  pre = txt "./" \/ (pre = [] /\ starts_with (txt "./") stem = false) ->
  stem <> [] -> forallb set_link_path stem = true ->
  In ext (map txt ["md"; "txt"; "json"; "yaml"; "js"; "py";
                   "html"]%string) ->
  same_folded ext e ->
  match_at len0 pattern_markdown
           (v ++ ws ++ txt "[" ++ (q1 ++ t ++ q2) ++ txt "]("
            ++ (pre ++ stem ++ txt "." ++ e) ++ txt ")" ++ rest)
  = Some {| whole := v ++ ws ++ txt "[" ++ (q1 ++ t ++ q2) ++ txt "]("
                     ++ (pre ++ stem ++ txt "." ++ e) ++ txt ")";
            caps := [(3, pre ++ stem ++ txt "." ++ e); (2, q1 ++ t ++ q2)]
                    ++ match v with [] => [] | _ :: _ => [(1, v)] end |}.
Proof.
  intros Hlead Hq1 Hq2 Hne Ht Hpre Hsne Hstem Hext He.
  unfold match_at, pattern_markdown.
  assert (Hlink : forall g whole0 subject,
             subject = whole0 ++ rest ->
             run len0
                 (Cat (str "[")
                 (Cat (Grp 2 (Cat (Opt (str "`"))
                             (Cat (many1 set_link_text) (Opt (str "`")))))
                 (Cat (str "](")
                 (Cat (Grp 3 (Cat (Opt (str "./"))
                             (Cat (many1 set_link_path)
                             (Cat (str ".")
                                  (alts [istr "md"; istr "txt"; istr "json";
                                         istr "yaml"; istr "js"; istr "py";
                                         istr "html"])))))
                      (str ")")))))
                 (txt "[" ++ (q1 ++ t ++ q2) ++ txt "]("
                  ++ (pre ++ stem ++ txt "." ++ e) ++ txt ")" ++ rest)
                 g
                 (fun s1 g1 =>
                    Some {| whole := taken subject s1; caps := g1 |})
             = Some {| whole := whole0;
                       caps := [(3, pre ++ stem ++ txt "." ++ e);
                                (2, q1 ++ t ++ q2)] ++ g |}).
  { intros g whole0 subject ->.
    rewrite run_cat, run_str_app, run_cat, run_grp.
    rewrite <- !app_assoc.
    apply run_link_label; [exact Hq1 | exact Hq2 | exact Hne | exact Ht |].
    rewrite run_cat, run_str_app, run_cat, run_grp.
    apply (@run_link_path _ len0 pre stem ext e rest _ _ _
             Hpre Hsne Hstem Hext He).
    rewrite run_str_app. taken_simpl. reflexivity. }
  rewrite run_cat, run_opt.
  destruct Hlead as [[-> ->]|(verb & Hverb & Hv & Hwne & Hws)].
  - cbn [app]. apply option_second.
    + rewrite run_cat, run_grp. apply run_link_verb_none.
    + apply Hlink. now rewrite <- !app_assoc.
  - assert (Hvne : exists c v', v = c :: v').
    { destruct v as [|c v']; [|eauto]. inversion Hv; subst.
      vm_compute in Hverb. intuition discriminate. }
    destruct Hvne as (c & v' & Ev).
    replace (match v with [] => [] | _ :: _ => [(1, v)] end)
      with [(1, v)] by (rewrite Ev; reflexivity).
    apply option_first. rewrite run_cat, run_grp.
    apply (@run_link_verb _ len0 verb v _ _ _ _ Hverb Hv).
    apply run_many1_take; [exact Hwne | exact Hws | vm_compute; reflexivity |].
    rewrite taken_app. apply Hlink. now rewrite <- !app_assoc.
Qed.

Lemma pattern_markdown_bos_free : bos_free pattern_markdown = true.
Proof. vm_compute. reflexivity. Qed.

Lemma clean_path_leading pre stem e :
  pre = txt "./" \/ (pre = [] /\ starts_with (txt "./") stem = false) ->
  stem <> [] ->
  clean_path (pre ++ stem ++ txt "." ++ e) = stem ++ txt "." ++ e.
Proof.
  intros [->|[-> Hns]] Hne; unfold clean_path.
  - rewrite starts_with_app. change 2 with (length (txt "./")).
    apply skipn_length_app.
  - cbn [app]. now rewrite (@starts_with_dot_slash stem e Hne Hns).
Qed.


